(** * The responsive breakpoint broadcaster (utils/media-query)

    A shallow embedding of the module that owns the four viewport-width
    media queries, the module-level [handlers] registry and the
    [useScreenSize] hook, together with the part of the host (the
    media-query engine and its change events) that the module talks to.

    JavaScript values are modelled as follows.
    - A [Handle] is a function object; only its identity matters to the
      module ([item !== handler]), so it is a number, and the body that runs
      when it is called is looked up in a table [code].
    - [Handle[]] arrays live in a heap [arrays]; the module variable
      [handlers] holds a reference into it.  [push] updates the referenced
      array in place, [filter] allocates a new one.
    - [undefined] is [None].
    - A JavaScript evaluation either completes normally or throws. *)

From Stdlib Require Import QArith Lqa ZArith Lia.
From stdpp Require Import base option list gmap strings.

Set Default Proof Using "Type".

(** ** Completions *)

Inductive JsError := TypeError | ReferenceError.

Inductive Completion (A : Type) : Type :=
  | Normal (a : A)
  | Throw (e : JsError).
Arguments Normal {A} a.
Arguments Throw {A} e.

Global Instance Completion_ret : MRet Completion := λ A a, Normal a.
Global Instance Completion_bind : MBind Completion := λ A B f m,
  match m with
  | Normal a => f a
  | Throw e => Throw e
  end.

(** ** Media queries (host side) *)

(** The fragment of the media-query language the module uses. *)
Inductive MQuery :=
  | MinWidth (px : Q)
  | MaxWidth (px : Q)
  | MAnd (a b : MQuery).

(** Evaluation against a viewport width, both in CSS pixels.  [min-width]
    and [max-width] are inclusive bounds, and the engine compares lengths
    with a precision [eps]: [width >= px - eps] and [width <= px + eps].
    An engine that compares exactly has precision 0; Blink compares with
    the precision of its layout unit, 1/64 of a pixel. *)
Fixpoint evalMQ (eps : Q) (q : MQuery) (vw : Q) : bool :=
  match q with
  | MinWidth px => Qle_bool (px - eps) vw
  | MaxWidth px => Qle_bool vw (px + eps)
  | MAnd a b => evalMQ eps a vw && evalMQ eps b vw
  end.

Definition exact_precision : Q := 0.
(** [LayoutUnit::Epsilon()], 1/64. *)
Definition blink_precision : Q := 0.015625.

(** The precisions covered: from exact comparison to Blink's. *)
Definition engine_ok (eps : Q) : Prop :=
  (0 <= eps)%Q ∧ (eps <= blink_precision)%Q.

(** ['(max-width: 599.99px)'] *)
Definition q_xSmall : MQuery := MaxWidth 599.99.
(** ['(min-width: 600px) and (max-width: 959.99px)'] *)
Definition q_small : MQuery := MAnd (MinWidth 600) (MaxWidth 959.99).
(** ['(min-width: 960px) and (max-width: 1279.99px)'] *)
Definition q_medium : MQuery := MAnd (MinWidth 960) (MaxWidth 1279.99).
(** ['(min-width: 1280px)'] *)
Definition q_large : MQuery := MinWidth 1280.

(** The only listener this program ever attaches to a media query is the
    arrow function of the module initialisation,
    [(e) => { if (e.matches) handlers.forEach(handler => handler()) }]. *)
Inductive Listener := ModuleListener.

Record MediaQueryList := mkMQL {
  media : MQuery;
  listeners : list Listener
}.

(** ** Program state *)

Abbreviation Handle := nat.

(** The object returned by [getScreenSize]. *)
Record ScreenSize := mkScreenSize {
  isXSmall : option bool;
  isSmall : option bool;
  isMedium : option bool;
  isLarge : option bool
}.

(** What an observer sees of a notification: a handle is entered and left. *)
Inductive Event :=
  | Call (h : Handle)
  | Ret (h : Handle).

Global Instance Event_eq_dec : EqDecision Event.
Proof. solve_decision. Defined.

Record World := mkWorld {
  has_window : bool;              (* typeof window !== 'undefined' *)
  width : Q;                      (* width of the display area, CSS px *)
  precision : Q;                  (* host: precision of length comparisons *)
  mqls : list MediaQueryList;     (* host: MediaQueryList objects, oldest first *)
  arrays : list (list Handle);    (* heap of Handle[] objects *)
  handlers : nat;                 (* let handlers: Handle[] *)
  xSmallMedia : option nat;       (* let xSmallMedia: MediaQueryList *)
  smallMedia : option nat;
  mediumMedia : option nat;
  largeMedia : option nat;
  hooks : gmap nat ScreenSize;    (* the useState cell of each hook instance *)
  log : list Event
}.

Definition set_width (q : Q) (w : World) : World :=
  mkWorld (has_window w) q (precision w) (mqls w) (arrays w) (handlers w)
    (xSmallMedia w) (smallMedia w) (mediumMedia w) (largeMedia w) (hooks w) (log w).
Definition set_mqls (ms : list MediaQueryList) (w : World) : World :=
  mkWorld (has_window w) (width w) (precision w) ms (arrays w) (handlers w)
    (xSmallMedia w) (smallMedia w) (mediumMedia w) (largeMedia w) (hooks w) (log w).
Definition set_arrays (hp : list (list Handle)) (w : World) : World :=
  mkWorld (has_window w) (width w) (precision w) (mqls w) hp (handlers w)
    (xSmallMedia w) (smallMedia w) (mediumMedia w) (largeMedia w) (hooks w) (log w).
Definition set_handlers (r : nat) (w : World) : World :=
  mkWorld (has_window w) (width w) (precision w) (mqls w) (arrays w) r
    (xSmallMedia w) (smallMedia w) (mediumMedia w) (largeMedia w) (hooks w) (log w).
Definition set_media (x s m l : option nat) (w : World) : World :=
  mkWorld (has_window w) (width w) (precision w) (mqls w) (arrays w) (handlers w)
    x s m l (hooks w) (log w).
Definition set_hooks (hk : gmap nat ScreenSize) (w : World) : World :=
  mkWorld (has_window w) (width w) (precision w) (mqls w) (arrays w) (handlers w)
    (xSmallMedia w) (smallMedia w) (mediumMedia w) (largeMedia w) hk (log w).
Definition add_log (e : Event) (w : World) : World :=
  mkWorld (has_window w) (width w) (precision w) (mqls w) (arrays w) (handlers w)
    (xSmallMedia w) (smallMedia w) (mediumMedia w) (largeMedia w) (hooks w)
    (log w ++ [e]).

(** The contents of the array [handlers] refers to. *)
Definition registry (w : World) : list Handle :=
  default [] (arrays w !! handlers w).

(** ** The module *)

(** [const subscribe = (handler) => handlers.push(handler)]: the array the
    variable refers to is extended in place.  (The new length [push]
    returns is dropped by every caller.) *)
Definition subscribe (handler : Handle) (w : World) : Completion World :=
  match arrays w !! handlers w with
  | Some xs => Normal (set_arrays (<[handlers w := xs ++ [handler]]> (arrays w)) w)
  | None => Throw TypeError
  end.

(** [handlers = handlers.filter(item => item !== handler)]: [filter] builds
    a new array, and the variable is re-bound to it; the old array is left
    as it was. *)
Definition unsubscribe (handler : Handle) (w : World) : Completion World :=
  match arrays w !! handlers w with
  | Some xs =>
      let fresh := length (arrays w) in
      Normal (set_handlers fresh
                (set_arrays (arrays w ++ [filter (λ item, item ≠ handler) xs]) w))
  | None => Throw TypeError
  end.

(** The getter [media.matches] of the MediaQueryList object at [r]. *)
Definition get_matches (r : nat) (w : World) : Completion bool :=
  match mqls w !! r with
  | Some m => Normal (evalMQ (precision w) (media m) (width w))
  | None => Throw TypeError
  end.

(** [x?.matches]: [undefined] when [x] is [undefined], no property read. *)
Definition optional_matches (x : option nat) (w : World)
    : Completion (option bool) :=
  match x with
  | None => Normal None
  | Some r => b ← get_matches r w; Normal (Some b)
  end.

Definition getScreenSize (w : World) : Completion ScreenSize :=
  x ← optional_matches (xSmallMedia w) w;
  s ← optional_matches (smallMedia w) w;
  m ← optional_matches (mediumMedia w) w;
  l ← optional_matches (largeMedia w) w;
  Normal (mkScreenSize x s m l).

(** What the body of a handle may do to the module.  [CSetScreenSize k] is
    [setScreenSize(getScreenSize())] of hook instance [k]. *)
Inductive Cmd :=
  | CSubscribe (h : Handle)
  | CUnsubscribe (h : Handle)
  | CSetScreenSize (k : nat).

Global Instance Cmd_eq_dec : EqDecision Cmd.
Proof. solve_decision. Defined.

Definition run_cmd (c : Cmd) (w : World) : Completion World :=
  match c with
  | CSubscribe h => subscribe h w
  | CUnsubscribe h => unsubscribe h w
  | CSetScreenSize k =>
      s ← getScreenSize w; Normal (set_hooks (<[k := s]> (hooks w)) w)
  end.

Fixpoint run_cmds (cs : list Cmd) (w : World) : Completion World :=
  match cs with
  | [] => Normal w
  | c :: cs' => w' ← run_cmd c w; run_cmds cs' w'
  end.

Section Broadcaster.

(** The bodies of the function objects in play. *)
Variable code : Handle → list Cmd.

(** [handler()] *)
Definition call (h : Handle) (w : World) : Completion World :=
  w' ← run_cmds (code h) (add_log (Call h) w);
  Normal (add_log (Ret h) w').

(** [Array.prototype.forEach] on the array at [a]: the length [k + n] was
    read once, before the first call; index [k] is read from the array as
    it is when its turn comes, and skipped when absent. *)
Fixpoint forEach_from (a : nat) (n k : nat) (w : World) : Completion World :=
  match n with
  | O => Normal w
  | S n' =>
      match arrays w !! a ≫= (λ xs, xs !! k) with
      | Some h => w' ← call h w; forEach_from a n' (S k) w'
      | None => forEach_from a n' (S k) w
      end
  end.

(** [handlers.forEach(handler => handler())] *)
Definition notify (w : World) : Completion World :=
  match arrays w !! handlers w with
  | Some xs => forEach_from (handlers w) (length xs) 0 w
  | None => Throw TypeError
  end.

(** [(e) => { if (e.matches) handlers.forEach(handler => handler()) }] *)
Definition media_listener (e_matches : bool) (w : World) : Completion World :=
  if e_matches then notify w else Normal w.

Definition run_listener (l : Listener) (e_matches : bool) (w : World)
    : Completion World :=
  match l with
  | ModuleListener => media_listener e_matches w
  end.

(** *** Host: construction of queries and delivery of change events *)

(** [window.matchMedia(q)]: a new MediaQueryList; naming [window] where
    there is none is a ReferenceError. *)
Definition matchMedia (q : MQuery) (w : World) : Completion (nat * World) :=
  if has_window w
  then Normal (length (mqls w), set_mqls (mqls w ++ [mkMQL q []]) w)
  else Throw ReferenceError.

(** [media.addListener(l)] *)
Definition addListener (r : nat) (l : Listener) (w : World) : Completion World :=
  match mqls w !! r with
  | Some m =>
      Normal (set_mqls (<[r := mkMQL (media m) (listeners m ++ [l])]> (mqls w)) w)
  | None => Throw TypeError
  end.

Fixpoint fire (ls : list Listener) (e_matches : bool) (w : World)
    : Completion World :=
  match ls with
  | [] => Normal w
  | l :: ls' => w' ← run_listener l e_matches w; fire ls' e_matches w'
  end.

(** A change event is delivered to a query whose result differs between
    the old and the new width; the event carries the new result. *)
Definition report (old new : Q) (m : MediaQueryList) (w : World)
    : Completion World :=
  if Bool.eqb (evalMQ (precision w) (media m) old)
       (evalMQ (precision w) (media m) new)
  then Normal w
  else fire (listeners m) (evalMQ (precision w) (media m) new) w.

Fixpoint report_all (old new : Q) (ms : list MediaQueryList) (w : World)
    : Completion World :=
  match ms with
  | [] => Normal w
  | m :: ms' => w' ← report old new m w; report_all old new ms' w'
  end.

(** The viewport takes width [vw]: the host re-evaluates every query, oldest
    first, and reports the ones that changed. *)
Definition resize (vw : Q) (w : World) : Completion World :=
  report_all (width w) vw (mqls w) (set_width vw w).

(** *** Module initialisation *)

(** The state in which the module body starts: [let handlers: Handle[] = []]
    and the four media variables declared but not assigned. *)
Definition blank (eps : Q) (win : bool) (vw : Q) : World :=
  mkWorld win vw eps [] [[]] 0 None None None None ∅ [].

Fixpoint addListener_each (rs : list nat) (w : World) : Completion World :=
  match rs with
  | [] => Normal w
  | r :: rs' => w' ← addListener r ModuleListener w; addListener_each rs' w'
  end.

Definition module_init (w : World) : Completion World :=
  if has_window w then
    p1 ← matchMedia q_xSmall w;
    p2 ← matchMedia q_small p1.2;
    p3 ← matchMedia q_medium p2.2;
    p4 ← matchMedia q_large p3.2;
    addListener_each [p1.1; p2.1; p3.1; p4.1]
      (set_media (Some p1.1) (Some p2.1) (Some p3.1) (Some p4.1) p4.2)
  else Normal w.

Definition load (eps : Q) (win : bool) (vw : Q) : Completion World :=
  module_init (blank eps win vw).

(** *** useScreenSize *)

(** First render of hook instance [k], whose memoised callback
    [onSizeChanged] is the function object [h]:
    [useState(getScreenSize())], then the effect [subscribe(onSizeChanged)]. *)
Definition useScreenSize_mount (k : nat) (h : Handle) (w : World)
    : Completion World :=
  s ← getScreenSize w;
  subscribe h (set_hooks (<[k := s]> (hooks w)) w).

(** The effect's clean-up, [unsubscribe(onSizeChanged)]. *)
Definition useScreenSize_unmount (h : Handle) (w : World) : Completion World :=
  unsubscribe h w.

(** What [useScreenSize()] returns on a later render. *)
Definition useScreenSize_read (k : nat) (w : World) : option ScreenSize :=
  hooks w !! k.

(** *** Histories *)

Inductive Op :=
  | OSubscribe (h : Handle)
  | OUnsubscribe (h : Handle)
  | OMount (k : nat) (h : Handle)
  | OUnmount (h : Handle)
  | ORead
  | OResize (vw : Q).

Definition run_op (o : Op) (w : World) : Completion World :=
  match o with
  | OSubscribe h => subscribe h w
  | OUnsubscribe h => unsubscribe h w
  | OMount k h => useScreenSize_mount k h w
  | OUnmount h => useScreenSize_unmount h w
  | ORead => _ ← getScreenSize w; Normal w
  | OResize vw => resize vw w
  end.

Fixpoint run_ops (os : list Op) (w : World) : Completion World :=
  match os with
  | [] => Normal w
  | o :: os' => w' ← run_op o w; run_ops os' w'
  end.

End Broadcaster.

(** ** Observations on traces and registries *)

(** The handles entered in a trace, in order. *)
Definition invoked (tr : list Event) : list Handle :=
  omap (λ e, match e with Call h => Some h | Ret _ => None end) tr.

Definition occurrences (h : Handle) (l : list Handle) : nat :=
  length (filter (λ x, x = h) l).

(** How often [h] was called in a trace. *)
Definition invocations (h : Handle) (tr : list Event) : nat :=
  occurrences h (invoked tr).

(** The trace of a notification of the handles [l], each called, run to
    completion and left before the next is called. *)
Definition calls (l : list Handle) : list Event :=
  l ≫= (λ h, [Call h; Ret h]).

(** What was logged between [w] and a later [w']. *)
Definition since (w w' : World) : list Event :=
  drop (length (log w)) (log w').

(** The number of [true] flags of a screen size. *)
Definition flag (b : option bool) : nat :=
  match b with Some true => 1 | _ => 0 end.
Definition flags_true (s : ScreenSize) : nat :=
  flag (isXSmall s) + flag (isSmall s) + flag (isMedium s) + flag (isLarge s).

(** [getScreenSize()] in a browser whose viewport is [vw] pixels wide and
    whose engine has precision [eps]. *)
Definition breakpoints_at (eps : Q) (vw : Q) : Completion ScreenSize :=
  w ← load eps true vw; getScreenSize w.

(** The effect of a handle body on the contents of the registry alone. *)
Definition apply_cmd (c : Cmd) (l : list Handle) : list Handle :=
  match c with
  | CSubscribe h => l ++ [h]
  | CUnsubscribe h => filter (λ item, item ≠ h) l
  | CSetScreenSize _ => l
  end.

Fixpoint apply_cmds (cs : list Cmd) (l : list Handle) : list Handle :=
  match cs with
  | [] => l
  | c :: cs' => apply_cmds cs' (apply_cmd c l)
  end.

(** The effect of handle bodies on the hook cells, when [getScreenSize()]
    yields [s] throughout. *)
Fixpoint set_cells (s : ScreenSize) (cs : list Cmd) (hk : gmap nat ScreenSize)
    : gmap nat ScreenSize :=
  match cs with
  | [] => hk
  | CSetScreenSize k :: cs' => set_cells s cs' (<[k := s]> hk)
  | _ :: cs' => set_cells s cs' hk
  end.

(** The queries of the module, in the order it creates them. *)
Definition queries : list MQuery := [q_xSmall; q_small; q_medium; q_large].

(** The number of the queries [qs] that do not match at [old] and match at
    [new]. *)
Definition entering_of (eps : Q) (qs : list MQuery) (old new : Q) : nat :=
  length (filter (λ q, evalMQ eps q old = false ∧ evalMQ eps q new = true) qs).

(** The number of queries whose result differs between [old] and [new]. *)
Definition changed (eps : Q) (old new : Q) : nat :=
  length (filter (λ q, evalMQ eps q old ≠ evalMQ eps q new) queries).

(** Consecutive notifications, each over the registry the one before left:
    the commands their handles run, and what is logged. *)
Fixpoint passes_cmds (code : Handle → list Cmd) (n : nat) (r : list Handle)
    : list Cmd :=
  match n with
  | O => []
  | S n' =>
      (r ≫= code) ++ passes_cmds code n' (apply_cmds (r ≫= code) r)
  end.

Fixpoint passes_trace (code : Handle → list Cmd) (n : nat) (r : list Handle)
    : list Event :=
  match n with
  | O => []
  | S n' => calls r ++ passes_trace code n' (apply_cmds (r ≫= code) r)
  end.

(** ** Well-formed states *)

(** [handlers] refers to an allocated array. *)
Definition wf (w : World) : Prop := is_Some (arrays w !! handlers w).

Definition ref_ok (ms : list MediaQueryList) (x : option nat) : Prop :=
  match x with
  | None => True
  | Some r => is_Some (ms !! r)
  end.

(** Each media variable is [undefined] or refers to a constructed query. *)
Definition media_ok (w : World) : Prop :=
  ref_ok (mqls w) (xSmallMedia w) ∧ ref_ok (mqls w) (smallMedia w) ∧
  ref_ok (mqls w) (mediumMedia w) ∧ ref_ok (mqls w) (largeMedia w).

Definition ok (w : World) : Prop := wf w ∧ media_ok w.

(** The state of the module after it was loaded in a browser. *)
Definition loaded (w : World) : Prop :=
  has_window w = true ∧
  mqls w = map (λ q, mkMQL q [ModuleListener]) queries ∧
  xSmallMedia w = Some 0 ∧ smallMedia w = Some 1 ∧
  mediumMedia w = Some 2 ∧ largeMedia w = Some 3.

(** The state in which no query was ever constructed. *)
Definition inert (w : World) : Prop :=
  mqls w = [] ∧ xSmallMedia w = None ∧ smallMedia w = None ∧
  mediumMedia w = None ∧ largeMedia w = None.

(** Two states agree on everything [getScreenSize] reads. *)
Definition same_env (w w' : World) : Prop :=
  has_window w' = has_window w ∧ width w' = width w ∧ mqls w' = mqls w ∧
  xSmallMedia w' = xSmallMedia w ∧ smallMedia w' = smallMedia w ∧
  mediumMedia w' = mediumMedia w ∧ largeMedia w' = largeMedia w ∧
  precision w' = precision w.

(** The array at [a] still starts with the elements [xs]. *)
Definition stable (a : nat) (xs : list Handle) (w : World) : Prop :=
  ∃ ext, arrays w !! a = Some (xs ++ ext).

(** [w'] is [w] after the commands [cs] ran and [tr] was logged. *)
Definition effect (cs : list Cmd) (tr : list Event) (w w' : World) : Prop :=
  ok w' ∧ same_env w w' ∧
  log w' = log w ++ tr ∧
  registry w' = apply_cmds cs (registry w) ∧
  (∀ s, getScreenSize w = Normal s → hooks w' = set_cells s cs (hooks w)) ∧
  (∀ a xs, stable a xs w → stable a xs w').

(** The width [vw] is not near the bound [B]: it is below the upper bound
    of the query under [B], or above [B], by more than the precision. *)
Definition clear_of (eps B vw : Q) : Prop :=
  (vw < B - 0.01 - eps ∨ B + eps < vw)%Q.

Definition away_from_bounds (eps vw : Q) : Prop :=
  clear_of eps 600 vw ∧ clear_of eps 960 vw ∧ clear_of eps 1280 vw.

(** The number of queries that do not match at [old] and match at [new]. *)
Definition entering (eps : Q) (old new : Q) : nat :=
  entering_of eps queries old new.

(** ** The program's own handles *)

(** What [getScreenSize] yields in a loaded module at width [vw]. *)
Definition classify (eps : Q) (vw : Q) : ScreenSize :=
  mkScreenSize (Some (evalMQ eps q_xSmall vw)) (Some (evalMQ eps q_small vw))
    (Some (evalMQ eps q_medium vw)) (Some (evalMQ eps q_large vw)).

(** [subscribe] and [unsubscribe] are not exported: the only function objects
    the program ever subscribes are the [onSizeChanged] callbacks of
    [useScreenSize], [() => { setScreenSize(getScreenSize()) }].  The
    callback of hook instance [k] is the handle [k]. *)
Definition hook_code (h : Handle) : list Cmd := [CSetScreenSize h].



(** The screen size with all four flags [undefined]. *)
Definition unknown_size : ScreenSize := mkScreenSize None None None None.




(** ** The side-navigation layouts

    [SideNavOuterToolbar] and [SideNavInnerToolbar] hold the same state and
    the same four callbacks; they differ in where the header is drawn. *)

(** [const MenuStatus = { Closed: 1, Opened: 2, TemporaryOpened: 3 }] *)
Inductive MenuStatus := Closed | Opened | TemporaryOpened.

Global Instance MenuStatus_eq_dec : EqDecision MenuStatus.
Proof. solve_decision. Defined.

(** Whether a flag that is [true], [false] or [undefined] counts as true in
    a condition. *)
Definition truthy (b : option bool) : bool :=
  match b with Some true => true | _ => false end.

(** Whether a string that may be [undefined] counts as true: it is there
    and not empty. *)
Definition truthy_string (s : option string) : bool :=
  match s with
  | Some EmptyString | None => false
  | Some _ => true
  end.

(** [useState(isLarge ? MenuStatus.Opened : MenuStatus.Closed)] *)
Definition initial_menuStatus (isLarge : option bool) : MenuStatus :=
  if truthy isLarge then Opened else Closed.

(** What a callback does besides setting the state. *)
Inductive UiEffect :=
  | StopPropagation
  | PreventDefault
  | RouterPush (path : string)
  | ScrollTo (top : Z).

Global Instance UiEffect_eq_dec : EqDecision UiEffect.
Proof. solve_decision. Defined.

(** [event?.stopPropagation()] and [event?.preventDefault()] *)
Definition on_event (has_event : bool) (e : UiEffect) : list UiEffect :=
  if has_event then [e] else [].

(** [toggleMenu]: the state updater applied to the previous state, and
    [event?.stopPropagation()]. *)
Definition toggleMenu (has_event : bool) (prev : MenuStatus)
    : MenuStatus * list UiEffect :=
  (if decide (prev = Closed) then Opened else Closed,
   on_event has_event StopPropagation).

Definition temporaryOpenMenu (prev : MenuStatus) : MenuStatus :=
  if decide (prev = Closed) then TemporaryOpened else prev.

(** [onOutsideClick]: the new state comes from the previous state, the
    value returned from the [menuStatus] of the render that made the
    callback. *)
Definition onOutsideClick (isLarge : option bool) (menuStatus prev : MenuStatus)
    : MenuStatus * bool :=
  (if bool_decide (prev ≠ Closed) && negb (truthy isLarge) then Closed else prev,
   if decide (menuStatus = Closed) then true else false).

(** The argument of [onNavigationChanged]: the values of [itemData?.path]
    and [node?.selected], and whether [event] is there. *)
Record ItemClickEvent := mkItemClick {
  item_path : option string;
  has_event : bool;
  node_selected : option bool
}.

(** [onNavigationChanged]; [scrollView] says whether [scrollViewRef.current]
    is set.  The state is set only where [setMenuStatus] is called. *)
Definition onNavigationChanged (isLarge : option bool) (menuStatus : MenuStatus)
    (scrollView : bool) (e : ItemClickEvent)
    : option MenuStatus * list UiEffect :=
  if bool_decide (menuStatus = Closed) || negb (truthy_string (item_path e))
     || truthy (node_selected e)
  then (None, on_event (has_event e) PreventDefault)
  else
    let go := RouterPush (default EmptyString (item_path e))
                :: (if scrollView then [ScrollTo 0] else []) in
    if negb (truthy isLarge) || bool_decide (menuStatus = TemporaryOpened)
    then (Some Closed, go ++ on_event (has_event e) StopPropagation)
    else (None, go).

Inductive OpenedStateMode := Shrink | Overlap.
Inductive RevealMode := Slide | Expand.

(** The properties the layouts hand to [Drawer]. *)
Record DrawerProps := mkDrawer {
  openedStateMode : OpenedStateMode;
  revealMode : RevealMode;
  minSize : nat;
  maxSize : nat;
  shading : bool;
  opened : bool
}.

Definition drawer (screenSize : ScreenSize) (menuStatus : MenuStatus)
    : DrawerProps :=
  mkDrawer
    (if truthy (isLarge screenSize) then Shrink else Overlap)
    (if truthy (isXSmall screenSize) then Slide else Expand)
    (if truthy (isXSmall screenSize) then 0 else 60)
    250
    (if truthy (isLarge screenSize) then false else true)
    (if decide (menuStatus = Closed) then false else true).

(** [compactMode={menuStatus === MenuStatus.Closed}] *)
Definition compactMode (menuStatus : MenuStatus) : bool :=
  bool_decide (menuStatus = Closed).

(** What the user does to a layout. *)
Inductive LayoutEvent :=
  | EToggle (has_event : bool)
  | ETemporaryOpen
  | EOutsideClick
  | ENavigate (scrollView : bool) (e : ItemClickEvent).

(** One event on a layout that was rendered after the last change of its
    state, so that its callbacks hold the present [menuStatus]. *)
Definition layout_step (isLarge : option bool) (ev : LayoutEvent)
    (st : MenuStatus) : MenuStatus * list UiEffect :=
  match ev with
  | EToggle b => toggleMenu b st
  | ETemporaryOpen => (temporaryOpenMenu st, [])
  | EOutsideClick => ((onOutsideClick isLarge st st).1, [])
  | ENavigate sv e =>
      let r := onNavigationChanged isLarge st sv e in (default st r.1, r.2)
  end.

Fixpoint layout_run (isLarge : option bool) (evs : list LayoutEvent)
    (st : MenuStatus) : MenuStatus * list UiEffect :=
  match evs with
  | [] => (st, [])
  | ev :: evs' =>
      let r := layout_step isLarge ev st in
      let r' := layout_run isLarge evs' r.1 in
      (r'.1, r.2 ++ r'.2)
  end.

(** What [useScreenSize()] gives a layout on its first render at width
    [vw]: the module is loaded, the hook is mounted and read. *)
Definition first_render (eps : Q) (win : bool) (vw : Q) (k : nat)
    (h : Handle) : Completion (option ScreenSize) :=
  w ← load eps win vw;
  w' ← useScreenSize_mount k h w;
  mret (useScreenSize_read k w').

(** ** The employee service (app/pages/form/data.ts) *)

(** A [Date] object: its time value in milliseconds, or an invalid date. *)
Inductive Date :=
  | DateAt (ms : Z)
  | InvalidDate.

(** [BirthDate: string | Date] *)
Inductive BirthDate :=
  | BirthString (s : string)
  | BirthObject (d : Date).

(** [interface Employee]; the four fields after [ConfirmPassword] are
    optional. *)
Record Employee := mkEmployee {
  ID : Z;
  FirstName : string;
  LastName : string;
  Position : string;
  BirthDate_ : BirthDate;
  HireDate : option Date * option Date;
  Notes : string;
  Address : string;
  Phone : string;
  Email : string;
  Password : string;
  ConfirmPassword : string;
  HireDateDisplay : option string;
  BirthDateDisplay : option string;
  CreatedAt : option string;
  UpdatedAt : option string
}.

(** [Partial<Employee>]: every field may be absent. *)
Record PartialEmployee := mkPartial {
  pID : option Z;
  pFirstName : option string;
  pLastName : option string;
  pPosition : option string;
  pBirthDate : option BirthDate;
  pHireDate : option (option Date * option Date);
  pNotes : option string;
  pAddress : option string;
  pPhone : option string;
  pEmail : option string;
  pPassword : option string;
  pConfirmPassword : option string;
  pHireDateDisplay : option string;
  pBirthDateDisplay : option string;
  pCreatedAt : option string;
  pUpdatedAt : option string
}.

(** The module state: [let employees: Employee[]] and [let nextId]. *)
Record Store := mkStore {
  employees : list Employee;
  nextId : Z
}.

Definition crlf : string :=
  String (Ascii.ascii_of_nat 13) (String (Ascii.ascii_of_nat 10) EmptyString).

Definition defaultEmployee : Employee :=
  mkEmployee 1 "John" "Heart" "CEO" (BirthString "1964/03/16") (None, None)
    (String.append
       "John has been in the Audio/Video industry since 1990. He has led DevAv as its CEO since 2003."
       (String.append crlf (String.append crlf
          "When not working hard as the CEO, John loves to golf and bowl. He once bowled a perfect game of 300.")))
    "351 S Hill St., Los Angeles, CA" "360-684-1334" "jheart@dx-email.com"
    "" "" None None None None.

Definition positions : list string :=
  ["HR Manager"; "IT Manager"; "CEO"; "Controller"; "Sales Manager";
   "Support Manager"; "Shipping Manager"]%string.

(** The state after the module body ran: the default employee was pushed
    and [nextId] is 2. *)
Definition initial_store : Store := mkStore [defaultEmployee] 2.

(** [getEmployee()]: the empty form. *)
Definition getEmployee : Employee :=
  mkEmployee 0 "" "" "" (BirthString "") (None, None) "" "" "" "" "" ""
    (HireDateDisplay defaultEmployee) (BirthDateDisplay defaultEmployee)
    (CreatedAt defaultEmployee) (UpdatedAt defaultEmployee).

Definition getPositions : list string := positions.

(** [getAllEmployees()]: a new array with the same elements. *)
Definition getAllEmployees (st : Store) : list Employee := employees st.

(** [employees.findIndex((emp) => emp.ID === id)] *)
Definition findIndex (id : Z) (l : list Employee) : option nat :=
  fst <$> list_find (λ emp, ID emp = id) l.

(** [employees.find((emp) => emp.ID === id) || null] *)
Definition getEmployeeById (id : Z) (st : Store) : option Employee :=
  snd <$> list_find (λ emp, ID emp = id) (employees st).

(** The host: how a date is shown in the locale, and how a string is read
    as a date. *)
Class DateHost := {
  toLocaleDateString : Date → string;
  Date_parse : string → Date
}.

Section Service.
Context `{DateHost}.

(** [new Date(employee.BirthDate)] *)
Definition newDate (b : BirthDate) : Date :=
  match b with
  | BirthString s => Date_parse s
  | BirthObject d => d
  end.

(** Whether a birth date counts as true: a [Date] object does, a string
    does unless it is empty. *)
Definition truthy_birth (b : BirthDate) : bool :=
  match b with
  | BirthString EmptyString => false
  | _ => true
  end.

(** The text for the hire dates of an employee or of a partial one. *)
Definition hireDateDisplay (hd : option (option Date * option Date)) : string :=
  match hd with
  | Some (Some d0, Some d1) =>
      String.append (toLocaleDateString d0)
        (String.append " - " (toLocaleDateString d1))
  | _ => "Not specified"
  end.

Definition birthDateDisplay (bd : option BirthDate) : string :=
  match bd with
  | Some b =>
      if truthy_birth b then toLocaleDateString (newDate b)
      else "Not specified"
  | None => "Not specified"
  end.

(** [addEmployee(employee)]; [now] is [new Date().toLocaleString()]. *)
Definition addEmployee (now : string) (employee : Employee) (st : Store)
    : Employee * Store :=
  let newEmployee :=
    mkEmployee (nextId st) (FirstName employee) (LastName employee)
      (Position employee) (BirthDate_ employee) (HireDate employee)
      (Notes employee) (Address employee) (Phone employee) (Email employee)
      (Password employee) (ConfirmPassword employee)
      (Some (hireDateDisplay (Some (HireDate employee))))
      (Some (birthDateDisplay (Some (BirthDate_ employee))))
      (Some now) (UpdatedAt employee) in
  (newEmployee, mkStore (employees st ++ [newEmployee]) (nextId st + 1)).

(** [{ ...old, ...employee, ID: id, HireDateDisplay: ..., BirthDateDisplay:
    ..., UpdatedAt: ... }] *)
Definition merge (now : string) (id : Z) (old : Employee)
    (employee : PartialEmployee) : Employee :=
  mkEmployee id
    (default (FirstName old) (pFirstName employee))
    (default (LastName old) (pLastName employee))
    (default (Position old) (pPosition employee))
    (default (BirthDate_ old) (pBirthDate employee))
    (default (HireDate old) (pHireDate employee))
    (default (Notes old) (pNotes employee))
    (default (Address old) (pAddress employee))
    (default (Phone old) (pPhone employee))
    (default (Email old) (pEmail employee))
    (default (Password old) (pPassword employee))
    (default (ConfirmPassword old) (pConfirmPassword employee))
    (Some (hireDateDisplay (pHireDate employee)))
    (Some (birthDateDisplay (pBirthDate employee)))
    (match pCreatedAt employee with Some c => Some c | None => CreatedAt old end)
    (Some now).

(** [updateEmployee(id, employee)] *)
Definition updateEmployee (now : string) (id : Z) (employee : PartialEmployee)
    (st : Store) : option Employee * Store :=
  match findIndex id (employees st) with
  | Some index =>
      match employees st !! index with
      | Some old =>
          let updated := merge now id old employee in
          (Some updated,
           mkStore (<[index := updated]> (employees st)) (nextId st))
      | None => (None, st)
      end
  | None => (None, st)
  end.

(** [deleteEmployee(id)]: [splice(index, 1)] takes the element out. *)
Definition deleteEmployee (id : Z) (st : Store) : bool * Store :=
  match findIndex id (employees st) with
  | Some index => (true, mkStore (delete index (employees st)) (nextId st))
  | None => (false, st)
  end.

Definition resetEmployees (st : Store) : Store :=
  mkStore ([] ++ [defaultEmployee]) 2.

(** A call that changes the store. *)
Inductive ServiceOp :=
  | SAdd (now : string) (employee : Employee)
  | SUpdate (now : string) (id : Z) (employee : PartialEmployee)
  | SDelete (id : Z)
  | SReset.

Definition service_step (o : ServiceOp) (st : Store) : Store :=
  match o with
  | SAdd now e => (addEmployee now e st).2
  | SUpdate now id e => (updateEmployee now id e st).2
  | SDelete id => (deleteEmployee id st).2
  | SReset => resetEmployees st
  end.

Definition service_run (os : list ServiceOp) (st : Store) : Store :=
  foldl (λ st o, service_step o st) st os.

End Service.

(** The identifiers in the store are pairwise different and below
    [nextId]. *)
Definition ids_ok (st : Store) : Prop :=
  NoDup (ID <$> employees st) ∧
  Forall (λ e, (ID e < nextId st)%Z) (employees st).

(** ** The middleware (middleware.tsx) *)

Inductive NextResponse :=
  | ResponseNext                       (* NextResponse.next() *)
  | ResponseRedirect (url : string).   (* NextResponse.redirect(url) *)

(** What [decrypt] resolves to when it yields a session: its [userId]. *)
Record SessionPayload := mkSession {
  userId : option string
}.

(** The calls into the session library, in the order they are made. *)
Inductive SessionCall :=
  | CallDecrypt (cookie : string)
  | CallCreateSession (user : string).

(** The parts of [@/app/lib/session] and [@/utils/default-user] that the
    middleware uses. *)
Class SessionLib := {
  decrypt : string → Completion (option SessionPayload);
  createSession : string → Completion unit;
  defaultUser_id : string
}.

(** [path.startsWith('/pages')] *)
Definition isProtectedRoute (path : string) : bool :=
  String.prefix "/pages" path.

Section Middleware.
Context `{SessionLib}.

(** [_DEMO_logIn], after the calls [calls] were made. *)
Definition DEMO_logIn (calls : list SessionCall)
    : Completion (NextResponse * list SessionCall) :=
  _ ← createSession defaultUser_id;
  mret (ResponseNext, calls ++ [CallCreateSession defaultUser_id]).

(** [redirectUnauthorized]: the redirect is commented out. *)
Definition redirectUnauthorized (calls : list SessionCall)
    : Completion (NextResponse * list SessionCall) :=
  DEMO_logIn calls.

(** [middleware(req)]; [path] is [req.nextUrl.pathname] and [cookie] is
    [(await cookies()).get('session')?.value]. *)
Definition middleware (path : string) (cookie : option string)
    : Completion (NextResponse * list SessionCall) :=
  if negb (isProtectedRoute path) then mret (ResponseNext, [])
  else if negb (truthy_string cookie) then redirectUnauthorized []
  else
    let c := default EmptyString cookie in
    session ← decrypt c;
    if negb (truthy_string (session ≫= userId))
    then redirectUnauthorized [CallDecrypt c]
    else mret (ResponseNext, [CallDecrypt c]).

End Middleware.

(** ** Sample states *)

(** Three handles: the first unsubscribes the second and itself, the second
    subscribes a fourth, the third is the callback of hook instance 0. *)
Definition sample_code (h : Handle) : list Cmd :=
  match h with
  | 1 => [CUnsubscribe 2; CUnsubscribe 1]
  | 2 => [CSubscribe 4]
  | 3 => [CSetScreenSize 0]
  | _ => []
  end.

(** A module loaded at 500px with the registry [[1; 2; 3]]. *)
Definition sample_world : World :=
  mkWorld true 500 blink_precision
    (map (λ q, mkMQL q [ModuleListener]) queries)
    [[1; 2; 3]] 0 (Some 0) (Some 1) (Some 2) (Some 3) ∅ [].

(** A module loaded at 500px in which handle 7 was subscribed three times. *)
Definition triple_world : World :=
  mkWorld true 500 blink_precision
    (map (λ q, mkMQL q [ModuleListener]) queries)
    [[7; 7; 7]] 0 (Some 0) (Some 1) (Some 2) (Some 3) ∅ [].

(** A host that shows every date as the same text. *)
Definition sample_host : DateHost :=
  {| toLocaleDateString := λ _, "1/1/2024"%string;
     Date_parse := λ _, DateAt 0 |}.

Definition jane : Employee :=
  mkEmployee 99 "Jane" "Doe" "Controller" (BirthString "1980/01/01")
    (Some (DateAt 0), Some (DateAt 86400000)) "" "" "" "" "" ""
    None None None None.

(** [{ Position: "CEO" }] *)
Definition promote : PartialEmployee :=
  mkPartial None None None (Some "CEO"%string) None None None None None None
    None None None None None None.

(** The store after [addEmployee(jane)]. *)
Definition two_store : Store :=
  (@addEmployee sample_host "now" jane initial_store).2.

(** A session library that accepts the cookie "good" alone. *)
Definition sample_sessions : SessionLib :=
  {| decrypt := λ c, Normal (if decide (c = "good"%string)
                             then Some (mkSession (Some "7"%string))
                             else None);
     createSession := λ _, Normal tt;
     defaultUser_id := "1"%string |}.

(** A module loaded at 500px in which hook instance 0 is mounted. *)
Definition hooked_world : World :=
  mkWorld true 500 blink_precision
    (map (λ q, mkMQL q [ModuleListener]) queries)
    [[0]] 0 (Some 0) (Some 1) (Some 2) (Some 3)
    (<[0 := classify blink_precision 500]> ∅) [].

(** The same where widths are compared exactly. *)
Definition exact_hooked_world : World :=
  mkWorld true 500 exact_precision
    (map (λ q, mkMQL q [ModuleListener]) queries)
    [[0]] 0 (Some 0) (Some 1) (Some 2) (Some 3)
    (<[0 := classify exact_precision 500]> ∅) [].

(** A module loaded at 600px in Blink in which hook instance 0 is
    mounted. *)
Definition wide_hooked_world : World :=
  mkWorld true 600 blink_precision
    (map (λ q, mkMQL q [ModuleListener]) queries)
    [[0]] 0 (Some 0) (Some 1) (Some 2) (Some 3)
    (<[0 := classify blink_precision 600]> ∅) [].

(** Closing tactics for facts about the sample states: the state is
    well-formed; a handle or command is, or is not, in a given list. *)
Ltac sample_ok :=
  split; [eexists; reflexivity|repeat split; simpl; eexists; reflexivity].

Ltac sample_elem :=
  apply list_elem_of_In; vm_compute; tauto.

Ltac sample_not_elem :=
  let H := fresh in
  intros H; apply list_elem_of_In in H; vm_compute in H;
  decompose [or] H; discriminate || contradiction.

(** ** Breakpoint thresholds *)

Section Thresholds.
Local Open Scope Q_scope.

Lemma Qle_bool_false (x y : Q) : Qle_bool x y = false ↔ y < x.
Proof.
  rewrite <- not_true_iff_false, Qle_bool_iff. split.
  - apply Qnot_le_lt.
  - intros H1 H2. exact (Qlt_not_le _ _ H1 H2).
Qed.

Lemma xSmall_iff (eps vw : Q) :
  evalMQ eps q_xSmall vw = true ↔ vw <= 599.99 + eps.
Proof. apply Qle_bool_iff. Qed.

Lemma small_iff (eps vw : Q) :
  evalMQ eps q_small vw = true ↔ 600 - eps <= vw ∧ vw <= 959.99 + eps.
Proof. simpl. rewrite andb_true_iff, !Qle_bool_iff. reflexivity. Qed.

Lemma medium_iff (eps vw : Q) :
  evalMQ eps q_medium vw = true ↔ 960 - eps <= vw ∧ vw <= 1279.99 + eps.
Proof. simpl. rewrite andb_true_iff, !Qle_bool_iff. reflexivity. Qed.

Lemma large_iff (eps vw : Q) :
  evalMQ eps q_large vw = true ↔ 1280 - eps <= vw.
Proof. apply Qle_bool_iff. Qed.

Lemma xSmall_false (eps vw : Q) :
  evalMQ eps q_xSmall vw = false ↔ 599.99 + eps < vw.
Proof. apply Qle_bool_false. Qed.

Lemma small_false (eps vw : Q) :
  evalMQ eps q_small vw = false ↔ vw < 600 - eps ∨ 959.99 + eps < vw.
Proof. simpl. rewrite andb_false_iff, !Qle_bool_false. reflexivity. Qed.

Lemma medium_false (eps vw : Q) :
  evalMQ eps q_medium vw = false ↔ vw < 960 - eps ∨ 1279.99 + eps < vw.
Proof. simpl. rewrite andb_false_iff, !Qle_bool_false. reflexivity. Qed.

Lemma large_false (eps vw : Q) :
  evalMQ eps q_large vw = false ↔ vw < 1280 - eps.
Proof. apply Qle_bool_false. Qed.

End Thresholds.

(** Turns what is known of the results of the four queries into bounds on
    the width. *)
Ltac mq_bounds :=
  repeat match goal with
  | H : evalMQ _ q_xSmall _ = true |- _ => apply xSmall_iff in H
  | H : evalMQ _ q_xSmall _ = false |- _ => apply xSmall_false in H
  | H : evalMQ _ q_small _ = true |- _ => apply small_iff in H; destruct H
  | H : evalMQ _ q_small _ = false |- _ =>
      apply small_false in H; destruct H
  | H : evalMQ _ q_medium _ = true |- _ => apply medium_iff in H; destruct H
  | H : evalMQ _ q_medium _ = false |- _ =>
      apply medium_false in H; destruct H
  | H : evalMQ _ q_large _ = true |- _ => apply large_iff in H
  | H : evalMQ _ q_large _ = false |- _ => apply large_false in H
  end.

(** Decides the four results at a width from bounds in the context. *)
Ltac mq_cases eps vw :=
  destruct (evalMQ eps q_xSmall vw) eqn:?, (evalMQ eps q_small vw) eqn:?,
    (evalMQ eps q_medium vw) eqn:?, (evalMQ eps q_large vw) eqn:?;
  try reflexivity; exfalso; mq_bounds; lra.

Section Classes.
Local Open Scope Q_scope.

Lemma classify_500 (eps : Q) :
  engine_ok eps →
  classify eps 500
  = mkScreenSize (Some true) (Some false) (Some false) (Some false).
Proof.
  intros [H0 H1]. unfold blink_precision in H1. unfold classify.
  mq_cases eps 500.
Qed.

Lemma classify_1920 (eps : Q) :
  engine_ok eps →
  classify eps 1920
  = mkScreenSize (Some false) (Some false) (Some false) (Some true).
Proof.
  intros [H0 H1]. unfold blink_precision in H1. unfold classify.
  mq_cases eps 1920.
Qed.

End Classes.

(** ** Reading the breakpoints *)

(** The screen size [getScreenSize] reports in a loaded module. *)
Lemma getScreenSize_loaded (w : World) :
  loaded w →
  getScreenSize w = Normal (classify (precision w) (width w)).
Proof.
  intros (_ & Hm & Hx & Hs & Hmd & Hl).
  unfold getScreenSize, optional_matches, get_matches.
  rewrite Hx, Hs, Hmd, Hl, Hm. reflexivity.
Qed.

Lemma getScreenSize_inert (w : World) :
  inert w → getScreenSize w = Normal (mkScreenSize None None None None).
Proof.
  intros (_ & Hx & Hs & Hmd & Hl).
  unfold getScreenSize, optional_matches. rewrite Hx, Hs, Hmd, Hl. reflexivity.
Qed.

Lemma getScreenSize_same_env (w w' : World) :
  same_env w w' → getScreenSize w' = getScreenSize w.
Proof.
  intros (_ & Hw & Hm & Hx & Hs & Hmd & Hl & Hp).
  unfold getScreenSize, optional_matches, get_matches.
  rewrite Hw, Hm, Hx, Hs, Hmd, Hl, Hp. reflexivity.
Qed.

Lemma getScreenSize_total (w : World) :
  media_ok w → ∃ s, getScreenSize w = Normal s.
Proof.
  intros (Hx & Hs & Hmd & Hl).
  unfold getScreenSize, optional_matches, get_matches.
  destruct (xSmallMedia w) as [x|], (smallMedia w) as [s|],
    (mediumMedia w) as [m|], (largeMedia w) as [l|]; simpl in *;
    repeat match goal with
    | H : is_Some (_ !! _) |- _ => destruct H as [? ->]
    end; simpl; eauto.
Qed.

Lemma same_env_refl (w : World) : same_env w w.
Proof. repeat split. Qed.

Lemma same_env_trans (w1 w2 w3 : World) :
  same_env w1 w2 → same_env w2 w3 → same_env w1 w3.
Proof.
  intros (A1 & A2 & A3 & A4 & A5 & A6 & A7 & A8)
    (B1 & B2 & B3 & B4 & B5 & B6 & B7 & B8).
  repeat split; congruence.
Qed.

Lemma media_ok_same_env (w w' : World) :
  same_env w w' → media_ok w → media_ok w'.
Proof.
  intros (_ & _ & Hm & Hx & Hs & Hmd & Hl & _). unfold media_ok.
  rewrite Hm, Hx, Hs, Hmd, Hl. done.
Qed.

Lemma loaded_same_env (w w' : World) :
  same_env w w' → loaded w → loaded w'.
Proof.
  intros (Hh & _ & Hm & Hx & Hs & Hmd & Hl & _). unfold loaded.
  rewrite Hh, Hm, Hx, Hs, Hmd, Hl. done.
Qed.

Lemma inert_same_env (w w' : World) :
  same_env w w' → inert w → inert w'.
Proof.
  intros (_ & _ & Hm & Hx & Hs & Hmd & Hl & _). unfold inert.
  rewrite Hm, Hx, Hs, Hmd, Hl. done.
Qed.

Lemma loaded_media_ok (w : World) : loaded w → media_ok w.
Proof.
  intros (_ & Hm & Hx & Hs & Hmd & Hl). unfold media_ok.
  rewrite Hm, Hx, Hs, Hmd, Hl. simpl. eauto 10.
Qed.

Lemma inert_media_ok (w : World) : inert w → media_ok w.
Proof.
  intros (_ & Hx & Hs & Hmd & Hl). unfold media_ok.
  rewrite Hx, Hs, Hmd, Hl. done.
Qed.

(** ** Loading the module *)

Lemma load_window (eps vw : Q) :
  ∃ w, load eps true vw = Normal w ∧ loaded w ∧ wf w ∧
       width w = vw ∧ precision w = eps ∧ registry w = [] ∧ log w = [].
Proof.
  exists (mkWorld true vw eps (map (λ q, mkMQL q [ModuleListener]) queries)
            [[]] 0 (Some 0) (Some 1) (Some 2) (Some 3) ∅ []).
  split; [vm_compute; reflexivity|].
  split; [by repeat split|]. split; [by exists []|]. by repeat split.
Qed.

Lemma load_no_window (eps vw : Q) :
  load eps false vw = Normal (blank eps false vw) ∧
  inert (blank eps false vw) ∧ wf (blank eps false vw).
Proof.
  split; [reflexivity|]. split; [by repeat split|]. by exists [].
Qed.

(** ** Effects of the module's operations *)

Lemma registry_lookup (w : World) (xs : list Handle) :
  arrays w !! handlers w = Some xs → registry w = xs.
Proof. unfold registry. by intros ->. Qed.

Lemma apply_cmds_app (cs1 cs2 : list Cmd) (l : list Handle) :
  apply_cmds (cs1 ++ cs2) l = apply_cmds cs2 (apply_cmds cs1 l).
Proof. revert l. induction cs1 as [|c cs1 IH]; intros l; simpl; auto. Qed.

Lemma set_cells_app (s : ScreenSize) (cs1 cs2 : list Cmd) (hk : gmap nat ScreenSize) :
  set_cells s (cs1 ++ cs2) hk = set_cells s cs2 (set_cells s cs1 hk).
Proof.
  revert hk. induction cs1 as [|c cs1 IH]; intros hk; simpl; [done|].
  destruct c; auto.
Qed.

Lemma effect_refl (w : World) : ok w → effect [] [] w w.
Proof.
  intros Hok. repeat split; try done; try apply Hok.
  by rewrite app_nil_r.
Qed.

Lemma effect_trans (cs1 cs2 : list Cmd) (t1 t2 : list Event) (w1 w2 w3 : World) :
  effect cs1 t1 w1 w2 → effect cs2 t2 w2 w3 →
  effect (cs1 ++ cs2) (t1 ++ t2) w1 w3.
Proof.
  intros (_ & E1 & L1 & R1 & H1 & S1) (O2 & E2 & L2 & R2 & H2 & S2).
  split; [done|]. split; [by eapply same_env_trans|].
  split; [by rewrite L2, L1, app_assoc|].
  split; [by rewrite R2, R1, apply_cmds_app|].
  split; [|by auto].
  intros s Hs. rewrite set_cells_app, <- (H1 s Hs). apply H2.
  by rewrite (getScreenSize_same_env w1 w2).
Qed.

(** A log entry changes nothing else. *)
Lemma add_log_effect (e : Event) (w : World) :
  ok w → effect [] [e] w (add_log e w).
Proof. intros Hok. repeat split; try done; apply Hok. Qed.

Lemma subscribe_effect (h : Handle) (w : World) :
  ok w →
  ∃ w', subscribe h w = Normal w' ∧ effect [CSubscribe h] [] w w' ∧
        handlers w' = handlers w.
Proof.
  intros [[xs Hxs] Hm]. unfold subscribe. rewrite Hxs.
  eexists. split; [reflexivity|]. split; [|done].
  pose proof (lookup_lt_Some _ _ _ Hxs) as Hlt.
  split; [split; [|done]|].
  { unfold wf; simpl. rewrite list_lookup_insert_eq by done. eauto. }
  split; [by repeat split|].
  split; [simpl; by rewrite app_nil_r|].
  split.
  { unfold registry; simpl. rewrite list_lookup_insert_eq by done.
    by rewrite Hxs. }
  split; [done|].
  intros a ys [ext Ha]; unfold stable; simpl.
  destruct (decide (handlers w = a)) as [<-|Hne].
  - rewrite list_lookup_insert_eq by done.
    exists (ext ++ [h]). rewrite Hxs in Ha. injection Ha as ->.
    by rewrite app_assoc.
  - rewrite list_lookup_insert_ne by done. eauto.
Qed.

Lemma unsubscribe_effect (h : Handle) (w : World) :
  ok w →
  ∃ w', unsubscribe h w = Normal w' ∧ effect [CUnsubscribe h] [] w w' ∧
        handlers w' = length (arrays w) ∧
        arrays w' !! handlers w = arrays w !! handlers w.
Proof.
  intros [[xs Hxs] Hm]. unfold unsubscribe. rewrite Hxs.
  eexists. split; [reflexivity|].
  pose proof (lookup_lt_Some _ _ _ Hxs) as Hlt.
  split; [|split; [done|simpl; by apply lookup_app_l_Some]].
  split; [split; [|done]|].
  { unfold wf; simpl. rewrite list_lookup_middle by done. eauto. }
  split; [by repeat split|].
  split; [simpl; by rewrite app_nil_r|].
  split.
  { unfold registry; simpl. rewrite list_lookup_middle by done.
    by rewrite Hxs. }
  split; [done|].
  intros a ys [ext Ha]; unfold stable; simpl.
  exists ext. by apply lookup_app_l_Some.
Qed.

Lemma run_cmd_effect (c : Cmd) (w : World) :
  ok w → ∃ w', run_cmd c w = Normal w' ∧ effect [c] [] w w'.
Proof.
  intros Hok. destruct c as [h|h|k]; simpl.
  - destruct (subscribe_effect h w Hok) as (w' & ? & ? & _); eauto.
  - destruct (unsubscribe_effect h w Hok) as (w' & ? & ? & _); eauto.
  - destruct (getScreenSize_total w (proj2 Hok)) as [s Hs]. rewrite Hs; simpl.
    eexists. split; [reflexivity|].
    repeat split; try done; try apply Hok.
    + simpl. by rewrite app_nil_r.
    + intros s' Hs'. simpl. congruence.
Qed.

Lemma run_cmds_effect (cs : list Cmd) (w : World) :
  ok w → ∃ w', run_cmds cs w = Normal w' ∧ effect cs [] w w'.
Proof.
  revert w. induction cs as [|c cs IH]; intros w Hok; simpl.
  - eauto using effect_refl.
  - destruct (run_cmd_effect c w Hok) as (w1 & -> & E1); simpl.
    destruct (IH w1 (proj1 E1)) as (w2 & -> & E2).
    exists w2. split; [done|].
    apply (effect_trans [c] cs [] [] w w1 w2); done.
Qed.

Section Dispatch.
Variable code : Handle → list Cmd.

Lemma call_effect (h : Handle) (w : World) :
  ok w → ∃ w', call code h w = Normal w' ∧ effect (code h) [Call h; Ret h] w w'.
Proof.
  intros Hok. unfold call.
  pose proof (add_log_effect (Call h) w Hok) as E0.
  destruct (run_cmds_effect (code h) _ (proj1 E0)) as (w1 & -> & E1); simpl.
  eexists. split; [reflexivity|].
  pose proof (add_log_effect (Ret h) w1 (proj1 E1)) as E2.
  pose proof (effect_trans _ _ _ _ _ _ _ (effect_trans _ _ _ _ _ _ _ E0 E1) E2) as E.
  simpl in E. by rewrite app_nil_r in E.
Qed.

(** The loop of [forEach] visits the elements the array had when the loop
    began, whatever the handles do to the registry in between. *)
Lemma forEach_from_effect (a : nat) (xs : list Handle) (n k : nat) (w : World) :
  ok w → stable a xs w → k + n = length xs →
  ∃ w', forEach_from code a n k w = Normal w' ∧
        effect (drop k xs ≫= code) (calls (drop k xs)) w w'.
Proof.
  revert k w. induction n as [|n IH]; intros k w Hok Hst Hlen; simpl.
  - rewrite drop_ge by lia. eauto using effect_refl.
  - destruct (lookup_lt_is_Some_2 xs k ltac:(lia)) as [h Hh].
    destruct Hst as [ext Hext]. rewrite Hext; simpl.
    rewrite (lookup_app_l_Some _ _ _ _ Hh).
    destruct (call_effect h w Hok) as (w1 & -> & E1); simpl.
    destruct (IH (S k) w1 (proj1 E1)) as (w2 & -> & E2); [|lia|].
    { destruct E1 as (_ & _ & _ & _ & _ & S1). apply S1. by exists ext. }
    exists w2. split; [done|].
    rewrite (drop_S _ _ _ Hh). unfold calls. rewrite !bind_cons.
    by eapply effect_trans.
Qed.

(** A notification calls the handles of the registry as it was when the
    notification began, in order, and leaves the registry as the bodies of
    these handles, run one after the other, make it. *)
Lemma notify_effect (w : World) :
  ok w →
  ∃ w', notify code w = Normal w' ∧
        effect (registry w ≫= code) (calls (registry w)) w w'.
Proof.
  intros Hok. destruct (proj1 Hok) as [xs Hxs].
  unfold notify. rewrite Hxs, (registry_lookup w xs Hxs).
  apply (forEach_from_effect (handlers w) xs (length xs) 0 w); try done.
  exists []. by rewrite app_nil_r.
Qed.

End Dispatch.

(** ** Change events *)

Lemma effect_nil_registry (w w' : World) :
  effect [] [] w w' → registry w' = registry w.
Proof. by intros (_ & _ & _ & R & _). Qed.

Lemma effect_log (cs : list Cmd) (tr : list Event) (w w' : World) :
  effect cs tr w w' → since w w' = tr.
Proof.
  intros (_ & _ & L & _). unfold since. rewrite L. apply drop_app_length.
Qed.

Section Events.
Variable code : Handle → list Cmd.

(** The module's listener acts on events that carry [matches = true] and
    ignores the others. *)
Lemma media_listener_effect (e_matches : bool) (w : World) :
  ok w →
  ∃ w', media_listener code e_matches w = Normal w' ∧
        effect (if e_matches then registry w ≫= code else [])
               (if e_matches then calls (registry w) else []) w w'.
Proof.
  intros Hok. destruct e_matches; simpl.
  - by apply notify_effect.
  - eauto using effect_refl.
Qed.

Lemma report_effect (q : MQuery) (old new : Q) (w : World) :
  ok w →
  ∃ w', report code old new (mkMQL q [ModuleListener]) w = Normal w' ∧
        effect (if decide (evalMQ (precision w) q old = false ∧
                           evalMQ (precision w) q new = true)
                then registry w ≫= code else [])
               (if decide (evalMQ (precision w) q old = false ∧
                           evalMQ (precision w) q new = true)
                then calls (registry w) else []) w w'.
Proof.
  intros Hok. unfold report. cbn [media listeners fire run_listener].
  destruct (evalMQ (precision w) q old), (evalMQ (precision w) q new);
    cbn [Bool.eqb].
  - rewrite decide_False by (by intros [? _]). eauto using effect_refl.
  - rewrite decide_False by (by intros [? _]).
    destruct (media_listener_effect false w Hok) as (w' & -> & E). eauto.
  - rewrite decide_True by done.
    destruct (media_listener_effect true w Hok) as (w' & -> & E). eauto.
  - rewrite decide_False by (by intros [_ ?]). eauto using effect_refl.
Qed.

(** The queries are reported oldest first; each one that comes to match
    notifies the registry as it is by then. *)
Lemma report_all_effect (eps : Q) (qs : list MQuery) (old new : Q) (w : World) :
  ok w → precision w = eps →
  ∃ w', report_all code old new (map (λ q, mkMQL q [ModuleListener]) qs) w
          = Normal w' ∧
        effect (passes_cmds code (entering_of eps qs old new) (registry w))
               (passes_trace code (entering_of eps qs old new) (registry w))
               w w'.
Proof.
  revert w. induction qs as [|q qs IH]; intros w Hok Hp.
  - exists w. split; [done|]. by apply effect_refl.
  - cbn [map report_all].
    destruct (report_effect q old new w Hok) as (w1 & -> & E1).
    cbn [mbind Completion_bind].
    destruct (IH w1 (proj1 E1)) as (w2 & -> & E2).
    { destruct E1 as (_ & (_ & _ & _ & _ & _ & _ & _ & ->) & _). done. }
    exists w2. split; [done|].
    unfold entering_of in *. rewrite filter_cons. rewrite Hp in E1.
    destruct (decide (evalMQ eps q old = false ∧ evalMQ eps q new = true)).
    + cbn [length passes_cmds passes_trace].
      pose proof E1 as (_ & _ & _ & R1 & _). rewrite <- R1.
      exact (effect_trans _ _ _ _ _ _ _ E1 E2).
    + rewrite (effect_nil_registry _ _ E1) in E2.
      apply (effect_trans [] _ [] _ w w1 w2 E1 E2).
Qed.

(** A resize of a loaded module notifies the registry once for each query
    that comes to match. *)
Lemma resize_effect (vw : Q) (w : World) :
  loaded w → wf w →
  ∃ w', resize code vw w = Normal w' ∧
        effect (passes_cmds code (entering (precision w) (width w) vw)
                  (registry w))
               (passes_trace code (entering (precision w) (width w) vw)
                  (registry w))
               (set_width vw w) w'.
Proof.
  intros Hl Hwf.
  assert (ok (set_width vw w)) as Hok0.
  { split; [done|]. apply (loaded_media_ok w Hl). }
  unfold resize. destruct Hl as (_ & -> & _).
  apply (report_all_effect (precision w) queries (width w) vw
           (set_width vw w) Hok0 eq_refl).
Qed.

(** Every operation on a well-formed loaded module completes normally and
    leaves it well-formed and loaded. *)
Lemma run_op_loaded (o : Op) (w : World) :
  loaded w → wf w →
  ∃ w', run_op code o w = Normal w' ∧ loaded w' ∧ wf w'.
Proof.
  intros Hl Hwf.
  assert (ok w) as Hok by (split; [done|by apply loaded_media_ok]).
  destruct o as [h|h|k h|h| |vw]; simpl.
  - destruct (subscribe_effect h w Hok) as (w' & -> & (O & E & _) & _).
    exists w'. split; [done|]. split; [by eapply loaded_same_env|apply O].
  - destruct (unsubscribe_effect h w Hok) as (w' & -> & (O & E & _) & _).
    exists w'. split; [done|]. split; [by eapply loaded_same_env|apply O].
  - unfold useScreenSize_mount.
    destruct (getScreenSize_total w (proj2 Hok)) as [s ->]; simpl.
    destruct (subscribe_effect h (set_hooks (<[k:=s]> (hooks w)) w))
      as (w' & -> & (O & E & _) & _); [done|].
    exists w'. split; [done|]. split; [|apply O].
    eapply loaded_same_env; [exact E|done].
  - unfold useScreenSize_unmount.
    destruct (unsubscribe_effect h w Hok) as (w' & -> & (O & E & _) & _).
    exists w'. split; [done|]. split; [by eapply loaded_same_env|apply O].
  - destruct (getScreenSize_total w (proj2 Hok)) as [s ->]; simpl. eauto.
  - destruct (resize_effect vw w Hl Hwf) as (w' & -> & (O & E & _)).
    exists w'. split; [done|]. split; [|apply O].
    eapply loaded_same_env; [exact E|done].
Qed.

(** Without queries a resize reaches no listener. *)
Lemma resize_inert (vw : Q) (w : World) :
  inert w → resize code vw w = Normal (set_width vw w).
Proof. intros (Hm & _). unfold resize. by rewrite Hm. Qed.

(** Every operation on a module loaded without a window completes normally,
    constructs no query and logs nothing. *)
Lemma run_op_inert (o : Op) (w : World) :
  inert w → wf w →
  ∃ w', run_op code o w = Normal w' ∧ inert w' ∧ wf w' ∧ log w' = log w.
Proof.
  intros Hi Hwf.
  assert (ok w) as Hok by (split; [done|by apply inert_media_ok]).
  destruct o as [h|h|k h|h| |vw]; simpl.
  - destruct (subscribe_effect h w Hok) as (w' & -> & (O & E & L & _) & _).
    exists w'. rewrite L, app_nil_r.
    repeat split; [by eapply inert_same_env..|apply O].
  - destruct (unsubscribe_effect h w Hok) as (w' & -> & (O & E & L & _) & _).
    exists w'. rewrite L, app_nil_r.
    repeat split; [by eapply inert_same_env..|apply O].
  - unfold useScreenSize_mount.
    destruct (getScreenSize_total w (proj2 Hok)) as [s ->]; simpl.
    destruct (subscribe_effect h (set_hooks (<[k:=s]> (hooks w)) w))
      as (w' & -> & (O & E & L & _) & _); [done|].
    exists w'. rewrite L, app_nil_r.
    split; [done|]. split; [|split; [apply O|done]].
    eapply inert_same_env; [exact E|done].
  - unfold useScreenSize_unmount.
    destruct (unsubscribe_effect h w Hok) as (w' & -> & (O & E & L & _) & _).
    exists w'. rewrite L, app_nil_r.
    repeat split; [by eapply inert_same_env..|apply O].
  - destruct (getScreenSize_total w (proj2 Hok)) as [s ->]; simpl. eauto.
  - rewrite (resize_inert vw w Hi). eauto.
Qed.

Lemma run_ops_inert (os : list Op) (w : World) :
  inert w → wf w →
  ∃ w', run_ops code os w = Normal w' ∧ inert w' ∧ wf w' ∧ log w' = log w.
Proof.
  revert w. induction os as [|o os IH]; intros w Hi Hwf; simpl; [eauto|].
  destruct (run_op_inert o w Hi Hwf) as (w1 & -> & Hi1 & Hwf1 & L1); simpl.
  destruct (IH w1 Hi1 Hwf1) as (w2 & -> & ? & ? & L2).
  exists w2. rewrite L2, L1. done.
Qed.

End Events.

(** ** Traces, occurrences and the registry as a list *)

Lemma invoked_calls (l : list Handle) : invoked (calls l) = l.
Proof.
  induction l as [|h l IH]; [done|].
  unfold calls, invoked in *. by rewrite bind_cons, omap_app, IH.
Qed.

Lemma occurrences_app (h : Handle) (l1 l2 : list Handle) :
  occurrences h (l1 ++ l2) = occurrences h l1 + occurrences h l2.
Proof. unfold occurrences. by rewrite filter_app, length_app. Qed.

Lemma occurrences_absent (h : Handle) (l : list Handle) :
  h ∉ l → occurrences h l = 0.
Proof.
  intros Hn. unfold occurrences.
  destruct (filter (λ x, x = h) l) as [|x l'] eqn:E; [done|].
  assert (x ∈ filter (λ x, x = h) l) as Hx by (rewrite E; left).
  apply list_elem_of_filter in Hx as [-> Hx]. done.
Qed.

Lemma occurrences_present (h : Handle) (l : list Handle) :
  h ∈ l → 1 ≤ occurrences h l.
Proof.
  intros Hin. unfold occurrences.
  assert (h ∈ filter (λ x, x = h) l) as Hx by (by apply list_elem_of_filter).
  destruct (filter (λ x, x = h) l); [by apply elem_of_nil in Hx|simpl; lia].
Qed.

Lemma filter_ne_absent (h : Handle) (l : list Handle) :
  h ∉ l → filter (λ item, item ≠ h) l = l.
Proof.
  induction l as [|x l IH]; intros Hn; [done|].
  apply not_elem_of_cons in Hn as [Hx Hl].
  rewrite filter_cons_True by done. by rewrite IH.
Qed.

Lemma filter_ne_removes (h : Handle) (l : list Handle) :
  h ∉ filter (λ item, item ≠ h) l.
Proof. rewrite list_elem_of_filter. by intros [? _]. Qed.

Lemma apply_cmds_keeps (h : Handle) (cs : list Cmd) (l : list Handle) :
  CUnsubscribe h ∉ cs → h ∈ l → h ∈ apply_cmds cs l.
Proof.
  revert l. induction cs as [|c cs IH]; intros l Hn Hin; [done|].
  apply not_elem_of_cons in Hn as [Hc Hcs]. simpl. apply IH; [done|].
  destruct c as [g|g|k]; simpl; [|apply list_elem_of_filter; split|]; try done.
  - apply elem_of_app. by left.
  - congruence.
Qed.

Lemma apply_cmds_adds (h : Handle) (cs : list Cmd) (l : list Handle) :
  CSubscribe h ∈ cs → CUnsubscribe h ∉ cs → h ∈ apply_cmds cs l.
Proof.
  revert l. induction cs as [|c cs IH]; intros l Hin Hn.
  - by apply elem_of_nil in Hin.
  - apply not_elem_of_cons in Hn as [Hc Hcs]. simpl.
    apply elem_of_cons in Hin as [<-|Hin]; [|by apply IH].
    apply apply_cmds_keeps; [done|]. simpl. apply elem_of_app. right. left.
Qed.

Lemma apply_cmds_NoDup (cs : list Cmd) (l : list Handle) :
  (∀ h, CSubscribe h ∉ cs) → NoDup l → NoDup (apply_cmds cs l).
Proof.
  revert l. induction cs as [|c cs IH]; intros l Hn Hl; [done|]. simpl.
  apply IH.
  - intros h Hh. apply (Hn h). by right.
  - destruct c as [g|g|k]; simpl; [|by apply NoDup_filter|done].
    exfalso. apply (Hn g). left.
Qed.

Lemma set_cells_keeps (s : ScreenSize) (k : nat) (cs : list Cmd)
    (hk : gmap nat ScreenSize) :
  hk !! k = Some s → set_cells s cs hk !! k = Some s.
Proof.
  revert hk. induction cs as [|c cs IH]; intros hk Hk; [done|].
  destruct c as [g|g|j]; simpl; try by apply IH.
  apply IH. destruct (decide (j = k)) as [->|Hne].
  - by rewrite lookup_insert_eq.
  - by rewrite lookup_insert_ne.
Qed.

Lemma set_cells_sets (s : ScreenSize) (k : nat) (cs : list Cmd)
    (hk : gmap nat ScreenSize) :
  CSetScreenSize k ∈ cs → set_cells s cs hk !! k = Some s.
Proof.
  revert hk. induction cs as [|c cs IH]; intros hk Hin.
  - by apply elem_of_nil in Hin.
  - apply elem_of_cons in Hin as [<-|Hin].
    + simpl. apply set_cells_keeps. by rewrite lookup_insert_eq.
    + destruct c; simpl; by apply IH.
Qed.

Lemma entering_pos (eps : Q) (q : MQuery) (old new : Q) :
  q ∈ queries → evalMQ eps q old = false → evalMQ eps q new = true →
  1 ≤ entering eps old new.
Proof.
  intros Hq Ho Hn. unfold entering, entering_of.
  assert (q ∈ filter (λ q, evalMQ eps q old = false ∧ evalMQ eps q new = true)
                queries) as Hin by (by apply list_elem_of_filter).
  destruct (filter _ queries); [by apply elem_of_nil in Hin|simpl; lia].
Qed.

Lemma entering_none (eps : Q) (old new : Q) :
  (∀ q, q ∈ queries → evalMQ eps q new = true → evalMQ eps q old = true) →
  entering eps old new = 0.
Proof.
  intros H. unfold entering, entering_of.
  destruct (filter _ queries) as [|q l] eqn:E; [done|].
  assert (q ∈ filter (λ q, evalMQ eps q old = false ∧ evalMQ eps q new = true)
                queries) as Hin by (rewrite E; left).
  apply list_elem_of_filter in Hin as [[Ho Hn] Hq].
  rewrite (H q Hq Hn) in Ho. done.
Qed.

Lemma entering_le (eps : Q) (old new : Q) : entering eps old new ≤ 4.
Proof.
  unfold entering, entering_of.
  etransitivity; [apply length_filter|]. reflexivity.
Qed.

(** From 500px to 1920px the first query stops matching and the fourth
    comes to match, in every engine. *)
Lemma entering_500_1920 (eps : Q) :
  engine_ok eps → entering eps 500 1920 = 1.
Proof.
  intros He.
  pose proof (classify_500 eps He) as C5.
  pose proof (classify_1920 eps He) as C19.
  unfold classify in *.
  injection C5 as X5 S5 M5 L5. injection C19 as X19 S19 M19 L19.
  change (evalMQ eps q_xSmall 500 = true) in X5.
  change (evalMQ eps q_small 500 = false) in S5.
  change (evalMQ eps q_medium 500 = false) in M5.
  change (evalMQ eps q_large 500 = false) in L5.
  change (evalMQ eps q_xSmall 1920 = false) in X19.
  change (evalMQ eps q_small 1920 = false) in S19.
  change (evalMQ eps q_medium 1920 = false) in M19.
  change (evalMQ eps q_large 1920 = true) in L19.
  unfold entering, entering_of, queries.
  rewrite !filter_cons, filter_nil. cbn beta.
  rewrite X5, S5, M5, L5, X19, S19, M19, L19.
  do 3 (rewrite decide_False by (intros [? ?]; discriminate)).
  by rewrite decide_True.
Qed.

(** ** Several notifications in a row *)

Lemma passes_trace_head (code : Handle → list Cmd) (n : nat) (r : list Handle) :
  1 ≤ n → ∃ rest, passes_trace code n r = calls r ++ rest.
Proof. destruct n as [|n]; [lia|]. simpl. eauto. Qed.

Lemma passes_trace_one (code : Handle → list Cmd) (r : list Handle) :
  passes_trace code 1 r = calls r.
Proof. simpl. apply app_nil_r. Qed.

Lemma passes_cmds_one (code : Handle → list Cmd) (r : list Handle) :
  passes_cmds code 1 r = r ≫= code.
Proof. simpl. apply app_nil_r. Qed.

Lemma apply_cmds_hooks (l r : list Handle) :
  apply_cmds (l ≫= hook_code) r = r.
Proof.
  induction l as [|h l IH]; [done|]. by rewrite bind_cons.
Qed.

Lemma passes_cmds_hook (n : nat) (r : list Handle) (c : Cmd) :
  c ∈ passes_cmds hook_code n r → ∃ j, j ∈ r ∧ c = CSetScreenSize j.
Proof.
  induction n as [|n IH]; simpl; [by intros ?%elem_of_nil|].
  rewrite apply_cmds_hooks, elem_of_app. intros [Hc|Hc]; [|by apply IH].
  apply list_elem_of_bind in Hc as (j & Hc & Hj).
  apply list_elem_of_singleton in Hc. eauto.
Qed.



Lemma passes_trace_hook (n : nat) (r : list Handle) (h : Handle) :
  h ∈ invoked (passes_trace hook_code n r) → h ∈ r.
Proof.
  induction n as [|n IH]; simpl; [by intros ?%elem_of_nil|].
  unfold invoked in *. rewrite omap_app, apply_cmds_hooks, elem_of_app.
  intros [Hh|Hh]; [|by apply IH].
  change (h ∈ invoked (calls r)) in Hh. by rewrite invoked_calls in Hh.
Qed.

(** The sample states are states of the program. *)
Lemma sample_world_reached (code : Handle → list Cmd) :
  (w ← load blink_precision true 500;
   run_ops code [OSubscribe 1; OSubscribe 2; OSubscribe 3] w)
  = Normal sample_world.
Proof. vm_compute. reflexivity. Qed.

Lemma triple_world_reached (code : Handle → list Cmd) :
  (w ← load blink_precision true 500;
   run_ops code [OSubscribe 7; OSubscribe 7; OSubscribe 7] w)
  = Normal triple_world.
Proof. vm_compute. reflexivity. Qed.

(** Every state reached from a freshly loaded module is well-formed. *)
Lemma reachable_ok (code : Handle → list Cmd) (eps : Q) (win : bool)
    (vw : Q) (os : list Op) :
  ∃ w0 w, load eps win vw = Normal w0 ∧ run_ops code os w0 = Normal w ∧ ok w.
Proof.
  destruct win.
  - destruct (load_window eps vw) as (w0 & -> & Hl & Hwf & _).
    exists w0. revert w0 Hl Hwf.
    induction os as [|o os IH]; intros w0 Hl Hwf; simpl.
    + exists w0. split; [done|]. split; [done|].
      split; [done|by apply loaded_media_ok].
    + destruct (run_op_loaded code o w0 Hl Hwf) as (w1 & -> & Hl1 & Hwf1).
      destruct (IH w1 Hl1 Hwf1) as (w & _ & ? & ?). eauto.
  - destruct (load_no_window eps vw) as (-> & Hi & Hwf).
    destruct (run_ops_inert code os _ Hi Hwf) as (w & ? & Hi' & Hwf' & _).
    exists (blank eps false vw), w.
    split; [done|]. split; [done|]. split; [done|by apply inert_media_ok].
Qed.

(** * Properties of the broadcaster *)

Section Breakpoints.
Local Open Scope Q_scope.

Lemma breakpoints_at_classify (eps vw : Q) :
  breakpoints_at eps vw = Normal (classify eps vw).
Proof.
  unfold breakpoints_at.
  destruct (load_window eps vw) as (w & -> & Hl & _ & Hw & Hp & _).
  cbn [mbind Completion_bind]. by rewrite (getScreenSize_loaded w Hl), Hw, Hp.
Qed.

(** Away from the bounds every engine gives the flags their nominal
    ranges, and exactly one of them is true. *)
Lemma classify_away (eps vw : Q) :
  engine_ok eps → away_from_bounds eps vw →
  flags_true (classify eps vw) = 1%nat ∧
  (isXSmall (classify eps vw) = Some true ↔ vw < 600) ∧
  (isSmall (classify eps vw) = Some true ↔ 600 <= vw ∧ vw < 960) ∧
  (isMedium (classify eps vw) = Some true ↔ 960 <= vw ∧ vw < 1280) ∧
  (isLarge (classify eps vw) = Some true ↔ 1280 <= vw).
Proof.
  intros [H0 H1] (A6 & A9 & A12). unfold blink_precision in H1.
  unfold clear_of in *. unfold classify, flags_true.
  cbn [isXSmall isSmall isMedium isLarge].
  destruct (evalMQ eps q_xSmall vw) eqn:?, (evalMQ eps q_small vw) eqn:?,
    (evalMQ eps q_medium vw) eqn:?, (evalMQ eps q_large vw) eqn:?;
    mq_bounds; destruct A6, A9, A12; try (exfalso; lra);
    repeat split; intros;
    repeat match goal with H : _ ∧ _ |- _ => destruct H end;
    (reflexivity || discriminate || lra || (exfalso; lra)).
Qed.

Lemma whole_away (eps : Q) (z : Z) :
  engine_ok eps → z ≠ 600%Z → z ≠ 960%Z → z ≠ 1280%Z →
  away_from_bounds eps (inject_Z z).
Proof.
  intros [H0 H1] N6 N9 N12. unfold blink_precision in H1.
  assert (∀ B : Z, z ≠ B →
            inject_Z z <= inject_Z (B - 1) ∨ inject_Z (B + 1) <= inject_Z z)
    as Hz.
  { intros B HB. destruct (Z_lt_le_dec z B).
    - left. rewrite <- Zle_Qle. lia.
    - right. rewrite <- Zle_Qle. lia. }
  pose proof (Hz 600%Z N6) as Z6. pose proof (Hz 960%Z N9) as Z9.
  pose proof (Hz 1280%Z N12) as Z12.
  change (inject_Z (600 - 1)) with 599 in Z6.
  change (inject_Z (600 + 1)) with 601 in Z6.
  change (inject_Z (960 - 1)) with 959 in Z9.
  change (inject_Z (960 + 1)) with 961 in Z9.
  change (inject_Z (1280 - 1)) with 1279 in Z12.
  change (inject_Z (1280 + 1)) with 1281 in Z12.
  unfold away_from_bounds, clear_of.
  destruct Z6, Z9, Z12; repeat split; (left; lra) || (right; lra).
Qed.

Lemma classify_at_bounds (eps : Q) :
  engine_ok eps →
  (eps < 0.01 →
   classify eps 600
     = mkScreenSize (Some false) (Some true) (Some false) (Some false) ∧
   classify eps 960
     = mkScreenSize (Some false) (Some false) (Some true) (Some false) ∧
   classify eps 1280
     = mkScreenSize (Some false) (Some false) (Some false) (Some true)) ∧
  (0.01 <= eps →
   classify eps 600
     = mkScreenSize (Some true) (Some true) (Some false) (Some false) ∧
   classify eps 960
     = mkScreenSize (Some false) (Some true) (Some true) (Some false) ∧
   classify eps 1280
     = mkScreenSize (Some false) (Some false) (Some true) (Some true)).
Proof.
  intros [H0 H1]. unfold blink_precision in H1. unfold classify.
  split; intros He; repeat split.
  - mq_cases eps 600.
  - mq_cases eps 960.
  - mq_cases eps 1280.
  - mq_cases eps 600.
  - mq_cases eps 960.
  - mq_cases eps 1280.
Qed.

End Breakpoints.

(** C1 (as amended).  In a browser, each flag that [getScreenSize()]
    returns is the result of its own query, evaluated with the precision
    [eps] of the engine (0 where lengths are compared exactly, 1/64px in
    Blink): [isXSmall] iff [vw <= 599.99 + eps], [isSmall] iff
    [600 - eps <= vw <= 959.99 + eps], [isMedium] iff
    [960 - eps <= vw <= 1279.99 + eps], [isLarge] iff [1280 - eps <= vw].
    At 500px it returns [{isXSmall: true, isSmall: false, isMedium: false,
    isLarge: false}], at 1920px [{isXSmall: false, isSmall: false, isMedium:
    false, isLarge: true}].  At every width that is away from 600, 960 and
    1280 by more than [eps + 0.01], and so at every whole number of pixels
    other than these three, exactly one flag is true: [isXSmall] iff
    [vw < 600], [isSmall] iff [600 <= vw < 960], [isMedium] iff
    [960 <= vw < 1280], [isLarge] iff [1280 <= vw].  At 600, 960 and 1280
    themselves the same holds when [eps < 0.01]; when [eps >= 0.01] the
    flag of the range below is true as well. *)
Theorem breakpoints_classified (eps : Q) :
  engine_ok eps →
  breakpoints_at eps 500
    = Normal (mkScreenSize (Some true) (Some false) (Some false) (Some false)) ∧
  breakpoints_at eps 1920
    = Normal (mkScreenSize (Some false) (Some false) (Some false) (Some true)) ∧
  (∀ vw : Q, ∃ x s m l : bool,
      breakpoints_at eps vw
        = Normal (mkScreenSize (Some x) (Some s) (Some m) (Some l)) ∧
      (x = true ↔ (vw <= 599.99 + eps)%Q) ∧
      (s = true ↔ (600 - eps <= vw)%Q ∧ (vw <= 959.99 + eps)%Q) ∧
      (m = true ↔ (960 - eps <= vw)%Q ∧ (vw <= 1279.99 + eps)%Q) ∧
      (l = true ↔ (1280 - eps <= vw)%Q)) ∧
  (∀ vw : Q, away_from_bounds eps vw → ∃ sz : ScreenSize,
      breakpoints_at eps vw = Normal sz ∧
      flags_true sz = 1 ∧
      (isXSmall sz = Some true ↔ (vw < 600)%Q) ∧
      (isSmall sz = Some true ↔ (600 <= vw)%Q ∧ (vw < 960)%Q) ∧
      (isMedium sz = Some true ↔ (960 <= vw)%Q ∧ (vw < 1280)%Q) ∧
      (isLarge sz = Some true ↔ (1280 <= vw)%Q)) ∧
  (∀ z : Z, z ≠ 600%Z → z ≠ 960%Z → z ≠ 1280%Z → ∃ sz : ScreenSize,
      breakpoints_at eps (inject_Z z) = Normal sz ∧
      flags_true sz = 1 ∧
      (isXSmall sz = Some true ↔ (z < 600)%Z) ∧
      (isSmall sz = Some true ↔ (600 <= z < 960)%Z) ∧
      (isMedium sz = Some true ↔ (960 <= z < 1280)%Z) ∧
      (isLarge sz = Some true ↔ (1280 <= z)%Z)) ∧
  ((eps < 0.01)%Q →
   breakpoints_at eps 600
     = Normal (mkScreenSize (Some false) (Some true) (Some false) (Some false)) ∧
   breakpoints_at eps 960
     = Normal (mkScreenSize (Some false) (Some false) (Some true) (Some false)) ∧
   breakpoints_at eps 1280
     = Normal (mkScreenSize (Some false) (Some false) (Some false) (Some true))) ∧
  ((0.01 <= eps)%Q →
   breakpoints_at eps 600
     = Normal (mkScreenSize (Some true) (Some true) (Some false) (Some false)) ∧
   breakpoints_at eps 960
     = Normal (mkScreenSize (Some false) (Some true) (Some true) (Some false)) ∧
   breakpoints_at eps 1280
     = Normal (mkScreenSize (Some false) (Some false) (Some true) (Some true))).
Proof.
  intros He. rewrite !breakpoints_at_classify.
  split; [by rewrite classify_500|]. split; [by rewrite classify_1920|].
  split; [|split; [|split; [|split]]].
  - intros vw. rewrite breakpoints_at_classify. do 4 eexists.
    split; [reflexivity|].
    split; [apply xSmall_iff|]. split; [apply small_iff|].
    split; [apply medium_iff|apply large_iff].
  - intros vw Ha. rewrite breakpoints_at_classify.
    exists (classify eps vw). split; [done|]. by apply classify_away.
  - intros z N6 N9 N12. rewrite breakpoints_at_classify.
    exists (classify eps (inject_Z z)). split; [done|].
    destruct (classify_away eps (inject_Z z) He (whole_away eps z He N6 N9 N12))
      as (F & X & S & M & L).
    split; [done|].
    split; [by rewrite X, (Zlt_Qlt z 600)|].
    split; [by rewrite S, (Zle_Qle 600 z), (Zlt_Qlt z 960)|].
    split; [by rewrite M, (Zle_Qle 960 z), (Zlt_Qlt z 1280)|].
    by rewrite L, (Zle_Qle 1280 z).
  - intros Hs. destruct (classify_at_bounds eps He) as [B _].
    destruct (B Hs) as (-> & -> & ->). done.
  - intros Hs. destruct (classify_at_bounds eps He) as [_ B].
    destruct (B Hs) as (-> & -> & ->). done.
Qed.

(** In Blink: two flags at 600, one at 601. *)
Lemma breakpoints_classified_witness :
  engine_ok blink_precision ∧
  breakpoints_at blink_precision 500
    = Normal (mkScreenSize (Some true) (Some false) (Some false) (Some false)) ∧
  breakpoints_at blink_precision 1920
    = Normal (mkScreenSize (Some false) (Some false) (Some false) (Some true)) ∧
  breakpoints_at blink_precision 600
    = Normal (mkScreenSize (Some true) (Some true) (Some false) (Some false)) ∧
  ∃ sz, breakpoints_at blink_precision (inject_Z 601) = Normal sz ∧
        flags_true sz = 1.
Proof.
  assert (engine_ok blink_precision) as He.
  { split; vm_compute; discriminate. }
  split; [exact He|].
  destruct (breakpoints_classified blink_precision He)
    as (B5 & B19 & _ & _ & W & _ & B).
  split; [exact B5|]. split; [exact B19|]. split.
  - apply B. vm_compute. discriminate.
  - destruct (W 601%Z) as (sz & E & F & _); [lia..|]. eauto.
Defined.

(** C1, counterexample.  At a width of 599.995px, which is below 600, an
    engine that compares exactly gives no true flag, and Blink gives two,
    [isXSmall] and [isSmall]; at 600px Blink gives the same two, so that
    [isXSmall] is true at a width that is not below 600. *)
Lemma breakpoints_counterexample :
  (599.995 < 600)%Q ∧
  breakpoints_at exact_precision 599.995
    = Normal (mkScreenSize (Some false) (Some false) (Some false) (Some false)) ∧
  breakpoints_at blink_precision 599.995
    = Normal (mkScreenSize (Some true) (Some true) (Some false) (Some false)) ∧
  breakpoints_at blink_precision 600
    = Normal (mkScreenSize (Some true) (Some true) (Some false) (Some false)).
Proof. repeat split; vm_compute; reflexivity. Qed.

(** C2.  Whatever the registry holds, [subscribe(h)] followed by
    [unsubscribe(h)] leaves a registry in which [h] does not occur. *)
Theorem unsubscribe_after_subscribe (h : Handle) (w : World) :
  ok w →
  ∃ w1 w2, subscribe h w = Normal w1 ∧ unsubscribe h w1 = Normal w2 ∧
           h ∉ registry w2.
Proof.
  intros Hok.
  destruct (subscribe_effect h w Hok) as (w1 & S1 & E1 & _).
  destruct (unsubscribe_effect h w1 (proj1 E1)) as (w2 & S2 & E2 & _).
  exists w1, w2. split; [done|]. split; [done|].
  destruct E2 as (_ & _ & _ & -> & _). simpl. apply filter_ne_removes.
Qed.

(** Handle 2 is in the sample registry before it is subscribed again. *)
Lemma unsubscribe_after_subscribe_witness :
  ok sample_world ∧ 2 ∈ registry sample_world ∧
  ∃ w1 w2, subscribe 2 sample_world = Normal w1 ∧
           unsubscribe 2 w1 = Normal w2 ∧ 2 ∉ registry w2.
Proof.
  split; [sample_ok|]. split; [sample_elem|].
  apply (unsubscribe_after_subscribe 2 sample_world). sample_ok.
Defined.

(** C3.  [unsubscribe(h)] of a handle that does not occur in the registry
    completes normally and leaves the registry with the same handles in the
    same order. *)
Theorem unsubscribe_absent (h : Handle) (w : World) :
  ok w → h ∉ registry w →
  ∃ w', unsubscribe h w = Normal w' ∧ registry w' = registry w.
Proof.
  intros Hok Hn.
  destruct (unsubscribe_effect h w Hok) as (w' & S & E & _).
  exists w'. split; [done|].
  destruct E as (_ & _ & _ & -> & _). simpl. by apply filter_ne_absent.
Qed.

Lemma unsubscribe_absent_witness :
  ok sample_world ∧ (9 ∉ registry sample_world) ∧
  ∃ w', unsubscribe 9 sample_world = Normal w' ∧
        registry w' = registry sample_world.
Proof.
  split; [sample_ok|]. split; [sample_not_elem|].
  apply (unsubscribe_absent 9 sample_world); [sample_ok|sample_not_elem].
Defined.

(** C4.  Where there is no window, loading the module does not throw and
    constructs no media query and leaves the four variables undefined;
    after any sequence of subscriptions, mounts, reads and resizes,
    [getScreenSize()] still completes normally with all four flags
    undefined, still no query exists, and no handle was ever called. *)
Theorem no_window_inert (code : Handle → list Cmd) (eps vw : Q) :
  ∃ w0, load eps false vw = Normal w0 ∧
        mqls w0 = [] ∧
        xSmallMedia w0 = None ∧ smallMedia w0 = None ∧
        mediumMedia w0 = None ∧ largeMedia w0 = None ∧
        getScreenSize w0 = Normal (mkScreenSize None None None None) ∧
        ∀ os : list Op, ∃ w,
          run_ops code os w0 = Normal w ∧
          mqls w = [] ∧
          getScreenSize w = Normal (mkScreenSize None None None None) ∧
          log w = [].
Proof.
  destruct (load_no_window eps vw) as (L & Hi & Hwf).
  exists (blank eps false vw). split; [done|].
  repeat split; try done.
  intros os.
  destruct (run_ops_inert code os _ Hi Hwf) as (w & R & Hi' & _ & Hlog).
  exists w. split; [done|]. split; [apply Hi'|].
  split; [by apply getScreenSize_inert|done].
Qed.

(** C5.  The listener of each of the four queries, when its query comes
    to match, calls all handles in the registry at that moment, whichever
    query it was, in registration order, each one called, its body run and
    left before the next is called, and calls nothing else: afterwards the
    registry and the hooks are what the bodies of these handles, run in that
    order, make of them.  A resize that makes [n] of the four queries come
    to match, where [1 <= n], does this [n] times in a row, each time on the
    registry as it is by then; [n] is 1 for a resize from 500px to 700px,
    and 2 in Blink for a resize from 500px to 1280px. *)
Theorem notification_fans_out (code : Handle → list Cmd) (w : World)
    (q : MQuery) (vw : Q) :
  loaded w → wf w →
  q ∈ queries → evalMQ (precision w) q (width w) = false →
  evalMQ (precision w) q vw = true →
  (∃ w1, media_listener code true w = Normal w1 ∧
         since w w1 = (registry w ≫= (λ h, [Call h; Ret h])) ∧
         invoked (since w w1) = registry w ∧
         registry w1 = apply_cmds (registry w ≫= code) (registry w) ∧
         (∀ s, getScreenSize w = Normal s →
               hooks w1 = set_cells s (registry w ≫= code) (hooks w))) ∧
  (∃ w' n, resize code vw w = Normal w' ∧
           n = entering (precision w) (width w) vw ∧ 1 ≤ n ∧ n ≤ 4 ∧
           since w w' = passes_trace code n (registry w) ∧
           (∃ rest, since w w'
                    = (registry w ≫= (λ h, [Call h; Ret h])) ++ rest) ∧
           (n = 1 → invoked (since w w') = registry w) ∧
           registry w'
             = apply_cmds (passes_cmds code n (registry w)) (registry w) ∧
           (∀ s, getScreenSize (set_width vw w) = Normal s →
                 hooks w'
                   = set_cells s (passes_cmds code n (registry w)) (hooks w))).
Proof.
  intros Hl Hwf Hq Hold Hnew. split.
  - assert (ok w) as Hok by (split; [done|by apply loaded_media_ok]).
    destruct (media_listener_effect code true w Hok) as (w1 & N & E).
    exists w1. split; [done|].
    rewrite (effect_log _ _ _ _ E).
    split; [done|]. split; [apply invoked_calls|].
    destruct E as (_ & _ & _ & R & Hk & _). done.
  - destruct (resize_effect code vw w Hl Hwf) as (w' & R & E).
    pose proof (entering_pos _ q _ _ Hq Hold Hnew) as Hn.
    pose proof (entering_le (precision w) (width w) vw) as Hn4.
    pose proof (effect_log _ _ _ _ E) as L.
    change (since (set_width vw w) w') with (since w w') in L.
    exists w', (entering (precision w) (width w) vw).
    split; [done|]. split; [done|]. split; [done|]. split; [done|].
    rewrite L. split; [done|].
    split; [by apply passes_trace_head|].
    split.
    { intros ->. rewrite passes_trace_one. apply invoked_calls. }
    destruct E as (_ & _ & _ & Rg & Hk & _). done.
Qed.

(** The sample module is resized from 500px to 1280px in Blink, where the
    third and the fourth query come to match: the registry is notified
    twice.  Handle 1 unsubscribes itself and handle 2, and handle 2
    subscribes handle 4, in the first pass; the second pass calls handles 3
    and 4. *)
Lemma notification_fans_out_witness :
  (loaded sample_world ∧ wf sample_world ∧ q_large ∈ queries ∧
   evalMQ (precision sample_world) q_large (width sample_world) = false ∧
   evalMQ (precision sample_world) q_large 1280 = true) ∧
  ∃ w', resize sample_code 1280 sample_world = Normal w' ∧
        since sample_world w'
          = [Call 1; Ret 1; Call 2; Ret 2; Call 3; Ret 3;
             Call 3; Ret 3; Call 4; Ret 4] ∧
        registry w' = [3; 4] ∧
        hooks w' = <[0 := classify blink_precision 1280]> ∅.
Proof.
  assert (loaded sample_world ∧ wf sample_world ∧ q_large ∈ queries ∧
          evalMQ (precision sample_world) q_large (width sample_world) = false ∧
          evalMQ (precision sample_world) q_large 1280 = true)
    as (Hl & Hwf & Hq & Ho & Hn).
  { split; [repeat split; reflexivity|]. split; [eexists; reflexivity|].
    split; [sample_elem|]. split; vm_compute; reflexivity. }
  split; [done|].
  destruct (notification_fans_out sample_code sample_world q_large 1280
              Hl Hwf Hq Ho Hn)
    as (_ & w' & n & R & -> & _ & _ & L & _ & _ & Rg & Hk).
  exists w'. split; [exact R|].
  split; [rewrite L; vm_compute; reflexivity|].
  split; [rewrite Rg; vm_compute; reflexivity|].
  rewrite (Hk (classify blink_precision 1280)); [|vm_compute; reflexivity].
  vm_compute. reflexivity.
Defined.

(** C6 (as amended).  When the viewport of a loaded module goes from 500px
    to 1920px, in an engine that compares exactly as in Blink, exactly one
    query comes to match, and every handle is called
    once for each of its occurrences in the registry at that time, hence at
    least once if it is subscribed and exactly once if it is subscribed
    once; afterwards [getScreenSize()] yields [isLarge: true], and so does
    every hook whose callback is subscribed. *)
Theorem resize_500_1920 (code : Handle → list Cmd) (w : World) :
  engine_ok (precision w) → loaded w → wf w → width w = 500%Q →
  ∃ w', resize code 1920 w = Normal w' ∧
        entering (precision w) 500 1920 = 1 ∧
        (∀ h, invocations h (since w w') = occurrences h (registry w)) ∧
        (∀ h, h ∈ registry w → 1 ≤ invocations h (since w w')) ∧
        getScreenSize w'
          = Normal (mkScreenSize (Some false) (Some false) (Some false)
                      (Some true)) ∧
        (∀ h k, h ∈ registry w → CSetScreenSize k ∈ code h →
                useScreenSize_read k w'
                  = Some (mkScreenSize (Some false) (Some false) (Some false)
                            (Some true))).
Proof.
  intros He Hl Hwf Hw.
  destruct (resize_effect code 1920 w Hl Hwf) as (w' & R & E).
  rewrite Hw, (entering_500_1920 _ He), passes_cmds_one, passes_trace_one in E.
  assert (loaded (set_width 1920 w)) as Hl0 by exact Hl.
  assert (getScreenSize (set_width 1920 w)
            = Normal (mkScreenSize (Some false) (Some false) (Some false)
                        (Some true))) as Hs.
  { rewrite (getScreenSize_loaded _ Hl0). simpl.
    by rewrite (classify_1920 _ He). }
  pose proof (effect_log _ _ _ _ E) as L.
  change (since (set_width 1920 w) w') with (since w w') in L.
  destruct E as (_ & Env & _ & _ & Hk & _).
  exists w'. split; [done|]. split; [by apply entering_500_1920|].
  rewrite L. unfold invocations. rewrite invoked_calls.
  split; [done|]. split; [intros h; apply occurrences_present|].
  split; [by rewrite (getScreenSize_same_env _ _ Env)|].
  intros h k Hh Hc. unfold useScreenSize_read. rewrite (Hk _ Hs).
  apply set_cells_sets. apply list_elem_of_bind. eauto.
Qed.

(** In the sample module handle 3 is the callback of hook instance 0 and is
    subscribed once: it is called once, and the hook then reads
    [isLarge: true]. *)
Lemma resize_500_1920_witness :
  (engine_ok (precision sample_world) ∧
   loaded sample_world ∧ wf sample_world ∧ width sample_world = 500%Q) ∧
  ∃ w', resize sample_code 1920 sample_world = Normal w' ∧
        invocations 3 (since sample_world w') = 1 ∧
        useScreenSize_read 0 w'
          = Some (mkScreenSize (Some false) (Some false) (Some false)
                    (Some true)).
Proof.
  split.
  - split; [split; vm_compute; discriminate|].
    split; [repeat split; reflexivity|]. split; [eexists|]; reflexivity.
  - destruct (resize_500_1920 sample_code sample_world)
      as (w' & R & _ & I & _ & _ & H).
    + split; vm_compute; discriminate.
    + repeat split; reflexivity.
    + eexists; reflexivity.
    + reflexivity.
    + exists w'. split; [exact R|]. split.
      * rewrite (I 3). vm_compute. reflexivity.
      * apply (H 3 0); sample_elem.
Defined.

(** C6, counterexample.  The resize from 500px to 1920px changes the result
    of two queries, and one of them comes to match.  In the sample module
    handle 3, subscribed once, is called once, which is not once for each
    query that changed; with handle 7 subscribed three times it is called
    three times, which is not once for each query that came to match. *)
Lemma resize_500_1920_counterexample :
  changed exact_precision 500 1920 = 2 ∧
  entering exact_precision 500 1920 = 1 ∧
  changed blink_precision 500 1920 = 2 ∧
  entering blink_precision 500 1920 = 1 ∧
  (∃ w', resize sample_code 1920 sample_world = Normal w' ∧
         3 ∈ registry sample_world ∧
         invocations 3 (since sample_world w') = 1) ∧
  (∃ w', resize sample_code 1920 triple_world = Normal w' ∧
         7 ∈ registry triple_world ∧
         invocations 7 (since triple_world w') = 3).
Proof.
  do 4 (split; [vm_compute; reflexivity|]).
  split; eexists; (split; [vm_compute; reflexivity|]);
    (split; [sample_elem|vm_compute; reflexivity]).
Qed.

(** C7 (as amended).  On a registry in which no handle occurs twice,
    [unsubscribe] leaves such a registry; [subscribe(h)] leaves such a
    registry exactly when [h] is not yet in it; a notification leaves such a
    registry when none of the handles it calls subscribes. *)
Theorem registry_NoDup_preserved (w : World) :
  ok w → NoDup (registry w) →
  (∀ h, ∃ w', unsubscribe h w = Normal w' ∧ NoDup (registry w')) ∧
  (∀ h, ∃ w', subscribe h w = Normal w' ∧
              (NoDup (registry w') ↔ h ∉ registry w)) ∧
  (∀ code : Handle → list Cmd,
     (∀ g h, g ∈ registry w → CSubscribe h ∉ code g) →
     ∃ w', notify code w = Normal w' ∧ NoDup (registry w')).
Proof.
  intros Hok Hnd. split; [|split].
  - intros h. destruct (unsubscribe_effect h w Hok) as (w' & S & E & _).
    exists w'. split; [done|]. destruct E as (_ & _ & _ & -> & _). simpl.
    by apply NoDup_filter.
  - intros h. destruct (subscribe_effect h w Hok) as (w' & S & E & _).
    exists w'. split; [done|]. destruct E as (_ & _ & _ & -> & _). simpl.
    rewrite NoDup_app. split.
    + intros (_ & Hd & _) Hin. apply (Hd h Hin). left.
    + intros Hn. split; [done|]. split; [|apply NoDup_singleton].
      intros x Hx Hx'. apply list_elem_of_singleton in Hx' as ->. done.
  - intros code Hc. destruct (notify_effect code w Hok) as (w' & N & E).
    exists w'. split; [done|]. destruct E as (_ & _ & _ & -> & _).
    apply apply_cmds_NoDup; [|done].
    intros h Hh. apply list_elem_of_bind in Hh as (g & Hh & Hg).
    by apply (Hc g h).
Qed.

(** On the sample registry: handle 2 is unsubscribed, the new handle 9 is
    subscribed, and a notification runs handles that do nothing. *)
Lemma registry_NoDup_preserved_witness :
  (ok sample_world ∧ NoDup (registry sample_world)) ∧
  (∃ w', unsubscribe 2 sample_world = Normal w' ∧ NoDup (registry w')) ∧
  (∃ w', subscribe 9 sample_world = Normal w' ∧ NoDup (registry w')) ∧
  (∃ w', notify (λ _, []) sample_world = Normal w' ∧ NoDup (registry w')).
Proof.
  assert (NoDup (registry sample_world)) as Hnd.
  { vm_compute. apply NoDup_ListNoDup. repeat constructor; simpl; lia. }
  split; [split; [sample_ok|exact Hnd]|].
  destruct (registry_NoDup_preserved sample_world) as (HU & HS & HN);
    [sample_ok|exact Hnd|].
  split; [exact (HU 2)|]. split.
  - destruct (HS 9) as (w' & S & I). exists w'. split; [exact S|].
    apply I. sample_not_elem.
  - apply (HN (λ _, [])). intros g h _ H. apply list_elem_of_In in H. exact H.
Defined.

(** C7, counterexample.  From a registry that holds handle 1 once, a second
    [subscribe(1)] completes normally and leaves it there twice. *)
Lemma registry_NoDup_counterexample :
  ∃ w0 w1 w2,
    load blink_precision true 500 = Normal w0 ∧
    subscribe 1 w0 = Normal w1 ∧
    NoDup (registry w1) ∧
    subscribe 1 w1 = Normal w2 ∧ registry w2 = [1; 1] ∧
    ¬ NoDup (registry w2).
Proof.
  do 3 eexists. split; [vm_compute; reflexivity|].
  split; [vm_compute; reflexivity|].
  split; [vm_compute; apply NoDup_singleton|].
  split; [vm_compute; reflexivity|]. split; [vm_compute; reflexivity|].
  vm_compute. intros H. apply NoDup_cons in H as [H _]. apply H. left.
Qed.

(** C8.  [subscribe] does not look for duplicates: two calls of
    [subscribe(h)] put [h] at the end of the registry twice, and one
    notification afterwards calls the handles of that registry in order,
    [h] twice more often than it occurred before, so exactly twice when [h]
    was not subscribed before; each call runs the body of its handle, so
    that afterwards the registry and the hooks are what these bodies, that
    of [h] among them as often as [h] was called, make of them. *)
Theorem subscribe_twice (code : Handle → list Cmd) (h : Handle) (w : World) :
  ok w →
  ∃ w1 w2 w3,
    subscribe h w = Normal w1 ∧ subscribe h w1 = Normal w2 ∧
    registry w2 = registry w ++ [h; h] ∧
    occurrences h (registry w2) = occurrences h (registry w) + 2 ∧
    media_listener code true w2 = Normal w3 ∧
    invocations h (since w2 w3) = occurrences h (registry w) + 2 ∧
    (h ∉ registry w →
     occurrences h (registry w2) = 2 ∧ invocations h (since w2 w3) = 2) ∧
    since w2 w3 = ((registry w ++ [h; h]) ≫= (λ g, [Call g; Ret g])) ∧
    registry w3
      = apply_cmds ((registry w ++ [h; h]) ≫= code) (registry w ++ [h; h]) ∧
    (∀ s, getScreenSize w = Normal s →
          hooks w3 = set_cells s ((registry w ++ [h; h]) ≫= code) (hooks w)).
Proof.
  intros Hok.
  destruct (subscribe_effect h w Hok) as (w1 & S1 & E1 & _).
  destruct (subscribe_effect h w1 (proj1 E1)) as (w2 & S2 & E2 & _).
  destruct (media_listener_effect code true w2 (proj1 E2)) as (w3 & N & E3).
  exists w1, w2, w3.
  assert (registry w2 = registry w ++ [h; h]) as R.
  { destruct E1 as (_ & _ & _ & R1 & _), E2 as (_ & _ & _ & R2 & _).
    rewrite R2, R1. simpl. by rewrite <- app_assoc. }
  assert (occurrences h (registry w2) = occurrences h (registry w) + 2) as O.
  { rewrite R, occurrences_app. f_equal. unfold occurrences.
    by rewrite !filter_cons_True. }
  assert (invocations h (since w2 w3) = occurrences h (registry w) + 2) as I.
  { rewrite (effect_log _ _ _ _ E3). unfold invocations.
    by rewrite invoked_calls. }
  repeat (split; [done|]).
  split.
  { intros Hn. rewrite I, O, (occurrences_absent h _ Hn). done. }
  split; [by rewrite (effect_log _ _ _ _ E3), R|].
  destruct E1 as (_ & Env1 & _ & _ & Hk1 & _).
  destruct E2 as (_ & Env2 & _ & _ & Hk2 & _).
  destruct E3 as (_ & _ & _ & R3 & Hk3 & _).
  split; [by rewrite R3, R|].
  intros s Hs.
  pose proof (getScreenSize_same_env _ _ Env1) as G1.
  pose proof (getScreenSize_same_env _ _ Env2) as G2.
  rewrite Hs in G1. rewrite G1 in G2.
  by rewrite (Hk3 s G2), (Hk2 s G1), (Hk1 s Hs), R.
Qed.

(** Handle 5 is new to the sample registry: subscribed twice, it is there
    twice and called twice. *)
Lemma subscribe_twice_witness :
  ok sample_world ∧ (5 ∉ registry sample_world) ∧
  ∃ w1 w2 w3,
    subscribe 5 sample_world = Normal w1 ∧ subscribe 5 w1 = Normal w2 ∧
    registry w2 = registry sample_world ++ [5; 5] ∧
    media_listener sample_code true w2 = Normal w3 ∧
    (occurrences 5 (registry w2) = 2 ∧ invocations 5 (since w2 w3) = 2) ∧
    registry w3 = [3; 5; 5; 4].
Proof.
  split; [sample_ok|]. split; [sample_not_elem|].
  destruct (subscribe_twice sample_code 5 sample_world)
    as (w1 & w2 & w3 & S1 & S2 & R & _ & N & _ & H & _ & R3 & _); [sample_ok|].
  exists w1, w2, w3. split; [exact S1|]. split; [exact S2|].
  split; [exact R|]. split; [exact N|].
  split; [apply H; sample_not_elem|].
  rewrite R3. vm_compute. reflexivity.
Defined.

(** C9.  [unsubscribe] binds [handlers] to a new, filtered array and leaves
    the array it was bound to as it is; so when a handle that is called
    during a notification unsubscribes itself or another handle, the
    notification, which walks the array it started on, still calls every
    handle that was registered when it began, in order. *)
Theorem unsubscribe_during_dispatch (code : Handle → list Cmd) (w : World)
    (h g : Handle) :
  ok w → h ∈ registry w → CUnsubscribe g ∈ code h →
  (∃ w1, unsubscribe g w = Normal w1 ∧
         handlers w1 ≠ handlers w ∧
         arrays w1 !! handlers w = Some (registry w) ∧
         registry w1 = filter (λ item, item ≠ g) (registry w)) ∧
  (∃ w', notify code w = Normal w' ∧
         invoked (since w w') = registry w ∧
         (∀ x, x ∈ registry w → x ∈ invoked (since w w')) ∧
         registry w' = apply_cmds (registry w ≫= code) (registry w)).
Proof.
  intros Hok Hh Hc. split.
  - destruct (unsubscribe_effect g w Hok) as (w1 & U & E & Hfresh & Hold).
    exists w1. split; [done|].
    destruct (proj1 Hok) as [xs Hxs].
    pose proof (lookup_lt_Some _ _ _ Hxs) as Hlt.
    split; [lia|]. split; [by rewrite Hold, Hxs, (registry_lookup w xs)|].
    by destruct E as (_ & _ & _ & -> & _).
  - destruct (notify_effect code w Hok) as (w' & N & E).
    exists w'. split; [done|].
    rewrite (effect_log _ _ _ _ E), invoked_calls.
    split; [done|]. split; [done|]. by destruct E as (_ & _ & _ & -> & _).
Qed.

(** In the sample module handle 1, the first to be called, unsubscribes
    handle 2 and itself: handles 1, 2 and 3 are called all the same, and
    afterwards the registry holds 3 and the handle that 2 subscribed. *)
Lemma unsubscribe_during_dispatch_witness :
  (ok sample_world ∧ 1 ∈ registry sample_world ∧
   CUnsubscribe 2 ∈ sample_code 1) ∧
  ∃ w', notify sample_code sample_world = Normal w' ∧
        invoked (since sample_world w') = [1; 2; 3] ∧
        registry w' = [3; 4].
Proof.
  split; [split; [sample_ok|split; sample_elem]|].
  destruct (unsubscribe_during_dispatch sample_code sample_world 1 2)
    as (_ & w' & N & I & _ & R); [sample_ok|sample_elem|sample_elem|].
  exists w'. split; [exact N|]. split; [exact I|].
  rewrite R. vm_compute. reflexivity.
Defined.

(** C10.  When a handle that is called during a notification subscribes a
    handle [h] that is not in the registry, [h] goes to the end of the
    array [handlers] refers to and is not called in that notification; if no
    handle called in that notification unsubscribes [h], it is in the
    registry when the notification ends and is called by the next one. *)
Theorem late_subscriber_waits (code : Handle → list Cmd) (w : World)
    (g h : Handle) :
  ok w → g ∈ registry w → CSubscribe h ∈ code g → h ∉ registry w →
  (∃ w1, subscribe h w = Normal w1 ∧ handlers w1 = handlers w ∧
         registry w1 = registry w ++ [h]) ∧
  ∃ w', notify code w = Normal w' ∧
        (h ∉ invoked (since w w')) ∧
        (CUnsubscribe h ∉ (registry w ≫= code) →
         h ∈ registry w' ∧
         ∃ w'', notify code w' = Normal w'' ∧ h ∈ invoked (since w' w'')).
Proof.
  intros Hok Hg Hc Hn. split.
  { destruct (subscribe_effect h w Hok) as (w1 & S & E & Hh).
    exists w1. split; [done|]. split; [done|].
    by destruct E as (_ & _ & _ & -> & _). }
  destruct (notify_effect code w Hok) as (w' & N & E).
  destruct (notify_effect code w' (proj1 E)) as (w'' & N' & E').
  exists w'. split; [done|].
  rewrite (effect_log _ _ _ _ E), invoked_calls. split; [done|].
  intros Hu.
  assert (h ∈ registry w') as Hin.
  { destruct E as (_ & _ & _ & -> & _). apply apply_cmds_adds; [|done].
    apply list_elem_of_bind. eauto. }
  split; [done|]. exists w''. split; [done|].
  by rewrite (effect_log _ _ _ _ E'), invoked_calls.
Qed.

(** In the sample module handle 2 subscribes handle 4, which nobody
    unsubscribes: 4 is not called by the first notification and is called
    by the second. *)
Lemma late_subscriber_waits_witness :
  (ok sample_world ∧ 2 ∈ registry sample_world ∧
   CSubscribe 4 ∈ sample_code 2 ∧ (4 ∉ registry sample_world) ∧
   (CUnsubscribe 4 ∉ (registry sample_world ≫= sample_code))) ∧
  ∃ w', notify sample_code sample_world = Normal w' ∧
        (4 ∉ invoked (since sample_world w')) ∧
        4 ∈ registry w' ∧
        ∃ w'', notify sample_code w' = Normal w'' ∧
               4 ∈ invoked (since w' w'').
Proof.
  split.
  { split; [sample_ok|]. split; [sample_elem|]. split; [sample_elem|].
    split; sample_not_elem. }
  destruct (late_subscriber_waits sample_code sample_world 2 4)
    as (_ & w' & N & I & H); [sample_ok|sample_elem|sample_elem|sample_not_elem|].
  exists w'. split; [exact N|]. split; [exact I|].
  apply H. sample_not_elem.
Defined.

(** * Further properties of the module *)

(** ** Resizes that notify nobody *)

Section Quiet.
Variable code : Handle → list Cmd.

Lemma resize_quiet_effect (vw : Q) (w : World) :
  loaded w → wf w →
  (∀ q, q ∈ queries → evalMQ (precision w) q vw = true →
        evalMQ (precision w) q (width w) = true) →
  ∃ w', resize code vw w = Normal w' ∧ effect [] [] (set_width vw w) w'.
Proof.
  intros Hl Hwf Hq.
  destruct (resize_effect code vw w Hl Hwf) as (w' & R & E).
  rewrite (entering_none _ _ _ Hq) in E. eauto.
Qed.

End Quiet.

(** X1.  A resize after which no query matches that did not match before
    completes normally and calls no handle; the registry and the state of
    every hook are as before, and [getScreenSize()] reads the new width. *)
Theorem resize_quiet (code : Handle → list Cmd) (vw : Q) (w : World) :
  loaded w → wf w →
  (∀ q, q ∈ queries → evalMQ (precision w) q vw = true →
        evalMQ (precision w) q (width w) = true) →
  ∃ w', resize code vw w = Normal w' ∧
        since w w' = [] ∧
        registry w' = registry w ∧
        hooks w' = hooks w ∧
        getScreenSize w' = Normal (classify (precision w) vw).
Proof.
  intros Hl Hwf Hq.
  destruct (resize_quiet_effect code vw w Hl Hwf Hq) as (w' & R & E).
  exists w'. split; [done|].
  pose proof (effect_log _ _ _ _ E) as L.
  destruct E as (_ & Env & _ & Hr & Hk & _).
  assert (getScreenSize (set_width vw w)
          = Normal (classify (precision w) vw)) as Hs.
  { by rewrite (getScreenSize_loaded (set_width vw w) Hl). }
  split; [exact L|]. split; [exact Hr|]. split; [exact (Hk _ Hs)|].
  by rewrite (getScreenSize_same_env _ _ Env).
Qed.

(** The sample module is resized from 500px to 333px. *)
Lemma resize_quiet_witness :
  (loaded sample_world ∧ wf sample_world ∧
   ∀ q, q ∈ queries → evalMQ (precision sample_world) q 333 = true →
        evalMQ (precision sample_world) q (width sample_world) = true) ∧
  ∃ w', resize sample_code 333 sample_world = Normal w' ∧
        since sample_world w' = [] ∧
        registry w' = registry sample_world ∧
        hooks w' = hooks sample_world ∧
        getScreenSize w' = Normal (classify (precision sample_world) 333).
Proof.
  assert (∀ q, q ∈ queries → evalMQ (precision sample_world) q 333 = true →
               evalMQ (precision sample_world) q (width sample_world) = true)
    as Hq.
  { intros q Hq. apply list_elem_of_In in Hq. simpl in Hq.
    decompose [or] Hq; subst; vm_compute; tauto. }
  split.
  - split; [repeat split; reflexivity|]. split; [eexists; reflexivity|exact Hq].
  - apply (resize_quiet sample_code 333 sample_world);
      [repeat split; reflexivity|eexists; reflexivity|exact Hq].
Defined.

(** ** Hooks that show a width of the past *)

Lemma classify_differs (eps : Q) (q : MQuery) (old new : Q) :
  q ∈ queries → evalMQ eps q old = true → evalMQ eps q new = false →
  classify eps new ≠ classify eps old.
Proof.
  intros Hq Ho Hn E.
  pose proof (f_equal isXSmall E) as E1. pose proof (f_equal isSmall E) as E2.
  pose proof (f_equal isMedium E) as E3. pose proof (f_equal isLarge E) as E4.
  unfold classify in E1, E2, E3, E4.
  cbn [isXSmall isSmall isMedium isLarge] in E1, E2, E3, E4.
  apply (inj Some) in E1, E2, E3, E4.
  apply list_elem_of_In in Hq. simpl in Hq.
  decompose [or] Hq; subst; try done; congruence.
Qed.

(** X2.  A resize after which no query matches that did not match before,
    while a query that matched does not match any more, calls no handle: a
    hook that showed what [getScreenSize()] yielded at the old width keeps
    showing it, and [getScreenSize()] now yields something else.  Where
    widths are compared exactly this is so from 500px to 599.995px, where
    the hook keeps [isXSmall: true] and [getScreenSize()] yields four false
    flags; in Blink from 600px to 700px, where the hook keeps [isXSmall:
    true] and [isSmall: true] and [getScreenSize()] yields [isSmall: true]
    alone. *)
Theorem hook_stale_after_leaving (code : Handle → list Cmd) (vw : Q)
    (w : World) (k : nat) (q0 : MQuery) :
  loaded w → wf w →
  (∀ q, q ∈ queries → evalMQ (precision w) q vw = true →
        evalMQ (precision w) q (width w) = true) →
  q0 ∈ queries → evalMQ (precision w) q0 (width w) = true →
  evalMQ (precision w) q0 vw = false →
  useScreenSize_read k w = Some (classify (precision w) (width w)) →
  ∃ w', resize code vw w = Normal w' ∧
        since w w' = [] ∧
        useScreenSize_read k w' = Some (classify (precision w) (width w)) ∧
        getScreenSize w' = Normal (classify (precision w) vw) ∧
        classify (precision w) vw ≠ classify (precision w) (width w).
Proof.
  intros Hl Hwf Hq Hq0 Ho Hn Hk.
  destruct (resize_quiet_effect code vw w Hl Hwf Hq) as (w' & R & E).
  exists w'. split; [done|].
  pose proof (effect_log _ _ _ _ E) as L.
  destruct E as (_ & Env & _ & _ & Hh & _).
  assert (getScreenSize (set_width vw w)
          = Normal (classify (precision w) vw)) as Hs.
  { by rewrite (getScreenSize_loaded (set_width vw w) Hl). }
  split; [exact L|]. split.
  { unfold useScreenSize_read in *. by rewrite (Hh _ Hs). }
  split; [by rewrite (getScreenSize_same_env _ _ Env)|].
  by apply (classify_differs _ q0).
Qed.

(** ** Mounting and unmounting the hook *)

(** X3.  Mounting the hook gives it the screen size of that moment and
    subscribes its callback; unmounting it afterwards removes the callback
    and leaves the other handles in their order, so that a registry that
    did not hold the callback is as it was before; the hook keeps its
    value. *)
Theorem mount_unmount_restores (k : nat) (h : Handle) (w : World) :
  ok w →
  ∃ s w1 w2,
    getScreenSize w = Normal s ∧
    useScreenSize_mount k h w = Normal w1 ∧
    useScreenSize_read k w1 = Some s ∧
    registry w1 = registry w ++ [h] ∧
    useScreenSize_unmount h w1 = Normal w2 ∧
    registry w2 = filter (λ item, item ≠ h) (registry w) ∧
    (h ∉ registry w → registry w2 = registry w) ∧
    useScreenSize_read k w2 = Some s.
Proof.
  intros Hok. destruct (getScreenSize_total w (proj2 Hok)) as [s Hs].
  unfold useScreenSize_mount, useScreenSize_unmount, useScreenSize_read.
  rewrite Hs. cbn [mbind Completion_bind].
  set (w0 := set_hooks (<[k:=s]> (hooks w)) w).
  assert (ok w0) as Hok0 by exact Hok.
  assert (getScreenSize w0 = Normal s) as Hs0 by exact Hs.
  destruct (subscribe_effect h w0 Hok0) as (w1 & S1 & E1 & _).
  destruct (unsubscribe_effect h w1 (proj1 E1)) as (w2 & S2 & E2 & _).
  destruct E1 as (O1 & Env1 & _ & R1 & H1 & _).
  destruct E2 as (_ & _ & _ & R2 & H2 & _).
  assert (getScreenSize w1 = Normal s) as Hs1.
  { by rewrite (getScreenSize_same_env _ _ Env1). }
  assert (hooks w1 !! k = Some s) as Hk1.
  { rewrite (H1 _ Hs0). simpl. unfold w0. simpl. by rewrite lookup_insert_eq. }
  assert (registry w2 = filter (λ item, item ≠ h) (registry w)) as R.
  { rewrite R2, R1. simpl. change (registry w0) with (registry w).
    rewrite filter_app, filter_cons_False, filter_nil, app_nil_r; [done|].
    intros Hne. by apply Hne. }
  exists s, w1, w2. split; [done|]. split; [done|]. split; [done|].
  split; [by rewrite R1|]. split; [done|]. split; [done|].
  split; [intros Hn; by rewrite R, filter_ne_absent|].
  by rewrite (H2 _ Hs1).
Qed.

Lemma mount_unmount_restores_witness :
  ok sample_world ∧
  ∃ s w1 w2,
    getScreenSize sample_world = Normal s ∧
    useScreenSize_mount 0 9 sample_world = Normal w1 ∧
    useScreenSize_read 0 w1 = Some s ∧
    registry w1 = registry sample_world ++ [9] ∧
    useScreenSize_unmount 9 w1 = Normal w2 ∧
    registry w2 = registry sample_world ∧
    useScreenSize_read 0 w2 = Some s.
Proof.
  split; [sample_ok|].
  destruct (mount_unmount_restores 0 9 sample_world)
    as (s & w1 & w2 & Hs & M & K1 & R1 & U & _ & R2 & K2); [sample_ok|].
  exists s, w1, w2. repeat (split; [assumption|]).
  split; [apply R2; sample_not_elem|exact K2].
Defined.

(** X4.  [unsubscribe(h)] followed by [subscribe(h)] leaves [h] in the
    registry exactly once, at its end, however often it was there before;
    the other handles keep their order. *)
Theorem resubscribe_normalises (h : Handle) (w : World) :
  ok w →
  ∃ w1 w2, unsubscribe h w = Normal w1 ∧ subscribe h w1 = Normal w2 ∧
           registry w2 = filter (λ item, item ≠ h) (registry w) ++ [h] ∧
           occurrences h (registry w2) = 1.
Proof.
  intros Hok.
  destruct (unsubscribe_effect h w Hok) as (w1 & S1 & E1 & _).
  destruct (subscribe_effect h w1 (proj1 E1)) as (w2 & S2 & E2 & _).
  exists w1, w2. split; [done|]. split; [done|].
  destruct E1 as (_ & _ & _ & R1 & _), E2 as (_ & _ & _ & R2 & _).
  assert (registry w2 = filter (λ item, item ≠ h) (registry w) ++ [h]) as R.
  { by rewrite R2, R1. }
  split; [done|]. rewrite R, occurrences_app.
  rewrite (occurrences_absent h _ (filter_ne_removes h (registry w))).
  unfold occurrences. by rewrite filter_cons_True.
Qed.

Lemma resubscribe_normalises_witness :
  ok triple_world ∧ occurrences 7 (registry triple_world) = 3 ∧
  ∃ w1 w2, unsubscribe 7 triple_world = Normal w1 ∧
           subscribe 7 w1 = Normal w2 ∧
           registry w2
             = filter (λ item, item ≠ 7) (registry triple_world) ++ [7] ∧
           occurrences 7 (registry w2) = 1.
Proof.
  split; [sample_ok|]. split; [vm_compute; reflexivity|].
  apply (resubscribe_normalises 7 triple_world). sample_ok.
Defined.

Lemma hooked_world_reached :
  (w ← load blink_precision true 500; run_ops hook_code [OMount 0 0] w)
  = Normal hooked_world.
Proof. vm_compute. reflexivity. Qed.

Lemma exact_hooked_world_reached :
  (w ← load exact_precision true 500; run_ops hook_code [OMount 0 0] w)
  = Normal exact_hooked_world.
Proof. vm_compute. reflexivity. Qed.

Lemma wide_hooked_world_reached :
  (w ← load blink_precision true 600; run_ops hook_code [OMount 0 0] w)
  = Normal wide_hooked_world.
Proof. vm_compute. reflexivity. Qed.

(** Where widths are compared exactly, from 500px to 599.995px; in Blink,
    from 600px to 700px. *)
Lemma hook_stale_after_leaving_witness :
  (∃ w', resize hook_code 599.995 exact_hooked_world = Normal w' ∧
         since exact_hooked_world w' = [] ∧
         useScreenSize_read 0 w'
           = Some (mkScreenSize (Some true) (Some false) (Some false)
                     (Some false)) ∧
         getScreenSize w'
           = Normal (mkScreenSize (Some false) (Some false) (Some false)
                       (Some false))) ∧
  (∃ w', resize hook_code 700 wide_hooked_world = Normal w' ∧
         since wide_hooked_world w' = [] ∧
         useScreenSize_read 0 w'
           = Some (mkScreenSize (Some true) (Some true) (Some false)
                     (Some false)) ∧
         getScreenSize w'
           = Normal (mkScreenSize (Some false) (Some true) (Some false)
                       (Some false))).
Proof.
  split.
  - destruct (hook_stale_after_leaving hook_code 599.995 exact_hooked_world
                0 q_xSmall) as (w' & R & L & Hk & Hs & _).
    + repeat split; reflexivity.
    + eexists; reflexivity.
    + intros q Hq. apply list_elem_of_In in Hq. simpl in Hq.
      decompose [or] Hq; subst; vm_compute; tauto.
    + sample_elem.
    + vm_compute. reflexivity.
    + vm_compute. reflexivity.
    + vm_compute. reflexivity.
    + exists w'. split; [exact R|]. split; [exact L|].
      split; [rewrite Hk|rewrite Hs]; vm_compute; reflexivity.
  - destruct (hook_stale_after_leaving hook_code 700 wide_hooked_world
                0 q_xSmall) as (w' & R & L & Hk & Hs & _).
    + repeat split; reflexivity.
    + eexists; reflexivity.
    + intros q Hq. apply list_elem_of_In in Hq. simpl in Hq.
      decompose [or] Hq; subst; vm_compute; tauto.
    + sample_elem.
    + vm_compute. reflexivity.
    + vm_compute. reflexivity.
    + vm_compute. reflexivity.
    + exists w'. split; [exact R|]. split; [exact L|].
      split; [rewrite Hk|rewrite Hs]; vm_compute; reflexivity.
Defined.

(** ** Hooks where there is no window *)

Section NoWindow.
Variable code : Handle → list Cmd.

Lemma run_op_inert_hook (o : Op) (w : World) (k : nat) :
  inert w → wf w → hooks w !! k = Some unknown_size →
  ∃ w', run_op code o w = Normal w' ∧ inert w' ∧ wf w' ∧
        hooks w' !! k = Some unknown_size.
Proof.
  intros Hi Hwf Hk.
  assert (ok w) as Hok by (split; [done|by apply inert_media_ok]).
  pose proof (getScreenSize_inert w Hi) as Hs.
  destruct o as [h|h|j h|h| |vw]; simpl.
  - destruct (subscribe_effect h w Hok) as (w' & -> & (O & E & _ & _ & H & _) & _).
    exists w'. split; [done|]. split; [by eapply inert_same_env|].
    split; [apply O|]. by rewrite (H _ Hs).
  - destruct (unsubscribe_effect h w Hok) as (w' & -> & (O & E & _ & _ & H & _) & _).
    exists w'. split; [done|]. split; [by eapply inert_same_env|].
    split; [apply O|]. by rewrite (H _ Hs).
  - unfold useScreenSize_mount. rewrite Hs. cbn [mbind Completion_bind].
    set (w0 := set_hooks (<[j:=mkScreenSize None None None None]> (hooks w)) w).
    destruct (subscribe_effect h w0 Hok) as (w' & S & (O & E & _ & _ & H & _) & _).
    rewrite S. unfold unknown_size in *.
    exists w'. split; [done|]. split; [eapply inert_same_env; [exact E|done]|].
    split; [apply O|]. rewrite (H _ Hs). simpl.
    destruct (decide (j = k)) as [->|Hne].
    + by rewrite lookup_insert_eq.
    + by rewrite lookup_insert_ne.
  - unfold useScreenSize_unmount.
    destruct (unsubscribe_effect h w Hok) as (w' & -> & (O & E & _ & _ & H & _) & _).
    exists w'. split; [done|]. split; [by eapply inert_same_env|].
    split; [apply O|]. by rewrite (H _ Hs).
  - rewrite Hs. simpl. eauto.
  - rewrite (resize_inert code vw w Hi). eauto.
Qed.

Lemma run_ops_inert_hook (os : list Op) (w : World) (k : nat) :
  inert w → wf w → hooks w !! k = Some unknown_size →
  ∃ w', run_ops code os w = Normal w' ∧ hooks w' !! k = Some unknown_size.
Proof.
  revert w. induction os as [|o os IH]; intros w Hi Hwf Hk; simpl; [eauto|].
  destruct (run_op_inert_hook o w k Hi Hwf Hk) as (w1 & -> & Hi1 & Hwf1 & Hk1).
  apply (IH w1 Hi1 Hwf1 Hk1).
Qed.

End NoWindow.

(** X5.  Where there is no window, a hook that was mounted at any time reads
    four undefined flags, and keeps reading them whatever is subscribed,
    mounted or resized before and afterwards. *)
Theorem no_window_hook_unknown (code : Handle → list Cmd) (eps vw : Q)
    (before after : list Op) (k : nat) (h : Handle) :
  ∃ w0 w,
    load eps false vw = Normal w0 ∧
    run_ops code (before ++ OMount k h :: after) w0 = Normal w ∧
    useScreenSize_read k w = Some (mkScreenSize None None None None).
Proof.
  destruct (load_no_window eps vw) as (L & Hi & Hwf).
  exists (blank eps false vw).
  assert (∀ os1 os2 w1,
            run_ops code (os1 ++ os2) w1
            = (w2 ← run_ops code os1 w1; run_ops code os2 w2)) as Happ.
  { induction os1 as [|o os1 IH]; intros os2 w1; simpl; [done|].
    destruct (run_op code o w1); simpl; [apply IH|done]. }
  destruct (run_ops_inert code before _ Hi Hwf) as (w1 & R1 & Hi1 & Hwf1 & _).
  assert (ok w1) as Hok1 by (split; [done|by apply inert_media_ok]).
  rewrite Happ, R1. cbn [mbind Completion_bind run_ops run_op].
  unfold useScreenSize_mount. rewrite (getScreenSize_inert w1 Hi1).
  cbn [mbind Completion_bind].
  set (w2 := set_hooks (<[k:=mkScreenSize None None None None]> (hooks w1)) w1).
  destruct (subscribe_effect h w2 Hok1) as (w3 & -> & (O & E & _ & _ & H & _) & _).
  cbn [mbind Completion_bind].
  destruct (run_ops_inert_hook code after w3 k) as (w & R & Hk).
  - eapply inert_same_env; [exact E|done].
  - apply O.
  - rewrite (H _ (getScreenSize_inert w2 Hi1)). simpl.
    by rewrite lookup_insert_eq.
  - exists w. split; [done|]. split; [done|]. exact Hk.
Qed.

(** ** Hooks follow the viewport *)





Section WholePixels.
Local Open Scope Q_scope.

Lemma xSmall_whole (eps : Q) (z : Z) :
  engine_ok eps → z ≠ 600%Z →
  evalMQ eps q_xSmall (inject_Z z) = (z <? 600)%Z.
Proof.
  intros [H0 H1] Hz. unfold blink_precision in H1.
  destruct (Z.ltb_spec z 600) as [Hlt|Hge].
  - apply xSmall_iff.
    assert (inject_Z z <= inject_Z 599) as Hq by (rewrite <- Zle_Qle; lia).
    change (inject_Z 599) with 599 in Hq. lra.
  - apply xSmall_false.
    assert (inject_Z 601 <= inject_Z z) as Hq by (rewrite <- Zle_Qle; lia).
    change (inject_Z 601) with 601 in Hq. lra.
Qed.

Lemma large_whole (eps : Q) (z : Z) :
  engine_ok eps → evalMQ eps q_large (inject_Z z) = (1280 <=? z)%Z.
Proof.
  intros [H0 H1]. unfold blink_precision in H1.
  destruct (Z.leb_spec 1280 z) as [Hge|Hlt].
  - apply large_iff.
    assert (inject_Z 1280 <= inject_Z z) as Hq by (rewrite <- Zle_Qle; lia).
    change (inject_Z 1280) with 1280 in Hq. lra.
  - apply large_false.
    assert (inject_Z z <= inject_Z 1279) as Hq by (rewrite <- Zle_Qle; lia).
    change (inject_Z 1279) with 1279 in Hq. lra.
Qed.



End WholePixels.



(** ** Handles that are no longer subscribed *)

Lemma set_cells_other (s : ScreenSize) (k : nat) (cs : list Cmd)
    (hk : gmap nat ScreenSize) :
  CSetScreenSize k ∉ cs → set_cells s cs hk !! k = hk !! k.
Proof.
  revert hk. induction cs as [|c cs IH]; intros hk Hn; [done|].
  apply not_elem_of_cons in Hn as [Hc Hcs].
  destruct c as [g|g|j]; simpl; try by apply IH.
  rewrite IH by done. apply lookup_insert_ne. congruence.
Qed.

Lemma apply_cmds_absent (g : Handle) (cs : list Cmd) (l : list Handle) :
  CSubscribe g ∉ cs → g ∉ l → g ∉ apply_cmds cs l.
Proof.
  revert l. induction cs as [|c cs IH]; intros l Hn Hl; [done|].
  apply not_elem_of_cons in Hn as [Hc Hcs]. simpl. apply IH; [done|].
  destruct c as [h|h|k]; simpl; [| |done].
  - rewrite elem_of_app, list_elem_of_singleton. intros [? | ->]; [done|].
    by apply Hc.
  - rewrite list_elem_of_filter. by intros [_ ?].
Qed.

Lemma apply_cmds_removes (g : Handle) (cs : list Cmd) (l : list Handle) :
  CUnsubscribe g ∈ cs → CSubscribe g ∉ cs → g ∉ apply_cmds cs l.
Proof.
  revert l. induction cs as [|c cs IH]; intros l Hin Hn.
  - by apply elem_of_nil in Hin.
  - apply not_elem_of_cons in Hn as [Hc Hcs]. simpl.
    apply elem_of_cons in Hin as [<-|Hin]; [|by apply IH].
    apply apply_cmds_absent; [done|]. simpl. apply filter_ne_removes.
Qed.

(** X7.  Once the callback of a hook is not in the registry (the component
    was unmounted), a resize to any width does not call it and leaves the
    value of the hook as it is. *)
Theorem unmounted_hook_frozen (vw : Q) (w : World) (k : nat) :
  loaded w → wf w → k ∉ registry w →
  ∃ w', resize hook_code vw w = Normal w' ∧
        (k ∉ invoked (since w w')) ∧
        useScreenSize_read k w' = useScreenSize_read k w.
Proof.
  intros Hl Hwf Hk.
  destruct (resize_effect hook_code vw w Hl Hwf) as (w' & R & E).
  exists w'. split; [done|].
  pose proof (effect_log _ _ _ _ E) as L.
  change (since (set_width vw w) w') with (since w w') in L.
  assert (getScreenSize (set_width vw w)
          = Normal (classify (precision w) vw)) as Hs.
  { by rewrite (getScreenSize_loaded (set_width vw w) Hl). }
  destruct E as (_ & _ & _ & _ & Hh & _).
  unfold useScreenSize_read. rewrite L, (Hh _ Hs).
  change (registry (set_width vw w)) with (registry w).
  change (hooks (set_width vw w)) with (hooks w).
  split.
  - intros Hin. by apply passes_trace_hook in Hin.
  - apply set_cells_other. intros Hin.
    apply passes_cmds_hook in Hin as (j & Hj & Hc). congruence.
Qed.

(** Hook 5 was never mounted in the module in which hook 0 is; the
    viewport goes from 500px to 1920px. *)
Lemma unmounted_hook_frozen_witness :
  (loaded hooked_world ∧ wf hooked_world ∧ (5 ∉ registry hooked_world)) ∧
  ∃ w', resize hook_code 1920 hooked_world = Normal w' ∧
        (5 ∉ invoked (since hooked_world w')) ∧
        useScreenSize_read 5 w' = useScreenSize_read 5 hooked_world.
Proof.
  split.
  - split; [repeat split; reflexivity|]. split; [eexists; reflexivity|].
    sample_not_elem.
  - apply (unmounted_hook_frozen 1920 hooked_world 5).
    + repeat split; reflexivity.
    + eexists; reflexivity.
    + sample_not_elem.
Defined.

(** X8.  A handle that is unsubscribed by a handle called during a
    notification, and subscribed by none of them, is still called in that
    notification, is not in the registry when it ends, and is not called by
    the next notification. *)
Theorem unsubscribed_in_dispatch_gone (code : Handle → list Cmd) (w : World)
    (g : Handle) :
  ok w → g ∈ registry w →
  CUnsubscribe g ∈ (registry w ≫= code) →
  CSubscribe g ∉ (registry w ≫= code) →
  ∃ w', notify code w = Normal w' ∧
        g ∈ invoked (since w w') ∧
        (g ∉ registry w') ∧
        ∃ w'', notify code w' = Normal w'' ∧ g ∉ invoked (since w' w'').
Proof.
  intros Hok Hg Hu Hs.
  destruct (notify_effect code w Hok) as (w' & N & E).
  destruct (notify_effect code w' (proj1 E)) as (w'' & N' & E').
  exists w'. split; [done|].
  rewrite (effect_log _ _ _ _ E), invoked_calls. split; [done|].
  assert (g ∉ registry w') as Hout.
  { destruct E as (_ & _ & _ & -> & _). by apply apply_cmds_removes. }
  split; [done|]. exists w''. split; [done|].
  by rewrite (effect_log _ _ _ _ E'), invoked_calls.
Qed.

(** In the sample module handle 1 unsubscribes handle 2. *)
Lemma unsubscribed_in_dispatch_gone_witness :
  (ok sample_world ∧ 2 ∈ registry sample_world ∧
   CUnsubscribe 2 ∈ (registry sample_world ≫= sample_code) ∧
   (CSubscribe 2 ∉ (registry sample_world ≫= sample_code))) ∧
  ∃ w', notify sample_code sample_world = Normal w' ∧
        2 ∈ invoked (since sample_world w') ∧
        (2 ∉ registry w') ∧
        ∃ w'', notify sample_code w' = Normal w'' ∧
               2 ∉ invoked (since w' w'').
Proof.
  split.
  - split; [sample_ok|]. split; [sample_elem|]. split; [sample_elem|].
    sample_not_elem.
  - apply (unsubscribed_in_dispatch_gone sample_code sample_world 2);
      [sample_ok|sample_elem|sample_elem|sample_not_elem].
Defined.

(** * The layouts that use the hook *)

Lemma mount_effect (k : nat) (h : Handle) (w : World) (s : ScreenSize) :
  ok w → getScreenSize w = Normal s →
  ∃ w', useScreenSize_mount k h w = Normal w' ∧
        useScreenSize_read k w' = Some s.
Proof.
  intros Hok Hs. unfold useScreenSize_mount, useScreenSize_read.
  rewrite Hs. cbn [mbind Completion_bind].
  destruct (subscribe_effect h (set_hooks (<[k:=s]> (hooks w)) w) Hok)
    as (w' & -> & (_ & _ & _ & _ & H & _) & _).
  exists w'. split; [done|]. rewrite (H s Hs). simpl.
  by rewrite lookup_insert_eq.
Qed.

Lemma first_render_window (eps vw : Q) (k : nat) (h : Handle) :
  first_render eps true vw k h = Normal (Some (classify eps vw)).
Proof.
  unfold first_render.
  destruct (load_window eps vw) as (w & -> & Hl & Hwf & Hw & Hp & _).
  cbn [mbind Completion_bind].
  destruct (mount_effect k h w (classify eps vw)) as (w' & M & Rd).
  - split; [done|by apply loaded_media_ok].
  - rewrite (getScreenSize_loaded w Hl), Hw, Hp. done.
  - rewrite M. cbn [mbind Completion_bind]. by rewrite Rd.
Qed.

Lemma first_render_no_window (eps vw : Q) (k : nat) (h : Handle) :
  first_render eps false vw k h = Normal (Some unknown_size).
Proof.
  unfold first_render.
  destruct (load_no_window eps vw) as (-> & Hi & Hwf).
  cbn [mbind Completion_bind].
  destruct (mount_effect k h (blank eps false vw) unknown_size)
    as (w' & M & Rd).
  - split; [done|by apply inert_media_ok].
  - by apply getScreenSize_inert.
  - rewrite M. cbn [mbind Completion_bind]. by rewrite Rd.
Qed.

(** X9.  A layout starts with its menu opened exactly when the fourth
    query matches the width at which it is first rendered, which is when
    that width is at least 1280px less the precision of the engine, and
    closed at every smaller width; at a whole number of pixels, opened
    exactly from 1280px on.  Where there is no window it starts closed. *)
Theorem menu_initial_by_width (eps : Q) (k : nat) (h : Handle) :
  engine_ok eps →
  (∀ vw : Q, ∃ s,
      first_render eps true vw k h = Normal (Some s) ∧
      (initial_menuStatus (isLarge s) = Opened ↔ (1280 - eps <= vw)%Q) ∧
      (initial_menuStatus (isLarge s) = Closed ↔ (vw < 1280 - eps)%Q)) ∧
  (∀ z : Z, ∃ s,
      first_render eps true (inject_Z z) k h = Normal (Some s) ∧
      (initial_menuStatus (isLarge s) = Opened ↔ (1280 <= z)%Z) ∧
      (initial_menuStatus (isLarge s) = Closed ↔ (z < 1280)%Z)) ∧
  (∀ vw : Q, ∃ s,
      first_render eps false vw k h = Normal (Some s) ∧
      initial_menuStatus (isLarge s) = Closed).
Proof.
  intros He. split; [|split].
  - intros vw. exists (classify eps vw). split; [apply first_render_window|].
    unfold initial_menuStatus, classify. cbn [isLarge truthy].
    rewrite <- large_iff, <- large_false.
    destruct (evalMQ eps q_large vw); split; split; done.
  - intros z. exists (classify eps (inject_Z z)).
    split; [apply first_render_window|].
    unfold initial_menuStatus, classify. cbn [isLarge truthy].
    rewrite (large_whole eps z He).
    destruct (Z.leb_spec 1280 z); split; split; intros; (done || lia).
  - intros vw. exists unknown_size. split; [apply first_render_no_window|done].
Qed.

(** In Blink the menu starts opened at 1279.99px, and closed at 1279px. *)
Lemma menu_initial_by_width_witness :
  engine_ok blink_precision ∧
  (∃ s, first_render blink_precision true 1279.99 0 0 = Normal (Some s) ∧
        initial_menuStatus (isLarge s) = Opened) ∧
  (∃ s, first_render blink_precision true (inject_Z 1279) 0 0
          = Normal (Some s) ∧
        initial_menuStatus (isLarge s) = Closed).
Proof.
  assert (engine_ok blink_precision) as He.
  { split; vm_compute; discriminate. }
  split; [exact He|].
  destruct (menu_initial_by_width blink_precision 0 0 He) as (Hq & Hz & _).
  split.
  - destruct (Hq 1279.99%Q) as (s & F & Ho & _). exists s.
    split; [exact F|]. apply Ho. vm_compute. discriminate.
  - destruct (Hz 1279%Z) as (s & F & _ & Hc). exists s.
    split; [exact F|]. apply Hc. lia.
Defined.

(** X10.  On its first render at a width of [z] whole pixels other than
    600 a layout gives the drawer: under 600px, overlap, slide, minimum size
    0 and shading; from 601px to 1279px, overlap, expand, minimum size 60
    and shading; from 1280px on, shrink, expand, minimum size 60 and no
    shading.  At 600px it gives overlap and shading, with expand and
    minimum size 60 where the precision of the engine is under a hundredth
    of a pixel, and with slide and minimum size 0 where it is a hundredth or
    more, as in Blink.  At any width the drawer slides, and has minimum
    size 0, exactly when the first query matches, and shrinks, and has no
    shading, exactly when the fourth does; at no width does it slide and
    shrink.  Where there is no window it gets overlap, expand, minimum size
    60 and shading.  It is opened exactly when the menu is not in compact
    mode. *)
Theorem drawer_by_width (eps : Q) (k : nat) (h : Handle) (st : MenuStatus) :
  engine_ok eps →
  (∀ z : Z, z ≠ 600%Z → ∃ s,
      first_render eps true (inject_Z z) k h = Normal (Some s) ∧
      drawer s st
        = mkDrawer (if (1280 <=? z)%Z then Shrink else Overlap)
            (if (z <? 600)%Z then Slide else Expand)
            (if (z <? 600)%Z then 0 else 60) 250
            (negb (1280 <=? z)%Z) (negb (compactMode st))) ∧
  (∃ s,
      first_render eps true 600 k h = Normal (Some s) ∧
      drawer s st
        = mkDrawer Overlap
            (if Qle_bool 0.01 eps then Slide else Expand)
            (if Qle_bool 0.01 eps then 0 else 60) 250
            true (negb (compactMode st))) ∧
  (∀ vw : Q, ∃ s,
      first_render eps true vw k h = Normal (Some s) ∧
      (revealMode (drawer s st) = Slide ↔ (vw <= 599.99 + eps)%Q) ∧
      (minSize (drawer s st) = 0 ↔ (vw <= 599.99 + eps)%Q) ∧
      (openedStateMode (drawer s st) = Shrink ↔ (1280 - eps <= vw)%Q) ∧
      (shading (drawer s st) = false ↔ (1280 - eps <= vw)%Q) ∧
      opened (drawer s st) = negb (compactMode st) ∧
      ¬ (revealMode (drawer s st) = Slide ∧
         openedStateMode (drawer s st) = Shrink)) ∧
  (∀ vw : Q, ∃ s,
      first_render eps false vw k h = Normal (Some s) ∧
      drawer s st = mkDrawer Overlap Expand 60 250 true (negb (compactMode st))).
Proof.
  intros He. split; [|split; [|split]].
  - intros z Hz. exists (classify eps (inject_Z z)).
    split; [apply first_render_window|].
    unfold drawer, classify. cbn [isLarge isXSmall truthy].
    rewrite (xSmall_whole eps z He Hz), (large_whole eps z He).
    destruct (1280 <=? z)%Z, (z <? 600)%Z, st; reflexivity.
  - exists (classify eps 600). split; [apply first_render_window|].
    destruct (classify_at_bounds eps He) as [Bs Bl].
    destruct (Qle_bool 0.01 eps) eqn:Hb.
    + apply Qle_bool_iff in Hb. destruct (Bl Hb) as (-> & _).
      by destruct st.
    + apply Qle_bool_false in Hb. destruct (Bs Hb) as (-> & _).
      by destruct st.
  - intros vw. exists (classify eps vw). split; [apply first_render_window|].
    unfold drawer, classify.
    cbn [isLarge isXSmall truthy revealMode openedStateMode minSize shading
         opened].
    rewrite <- xSmall_iff, <- large_iff.
    split; [by destruct (evalMQ eps q_xSmall vw)|].
    split; [by destruct (evalMQ eps q_xSmall vw)|].
    split; [by destruct (evalMQ eps q_large vw)|].
    split; [by destruct (evalMQ eps q_large vw)|].
    split; [by destruct st|].
    destruct He as [H0 H1]. unfold blink_precision in H1.
    destruct (evalMQ eps q_xSmall vw) eqn:?, (evalMQ eps q_large vw) eqn:?;
      try (intros [? ?]; done).
    exfalso. mq_bounds. lra.
  - intros vw. exists unknown_size. split; [apply first_render_no_window|].
    unfold drawer. simpl. by destruct st.
Qed.

(** In Blink the drawer slides at 600px and expands at 601px. *)
Lemma drawer_by_width_witness :
  engine_ok blink_precision ∧
  (∃ s, first_render blink_precision true 600 0 0 = Normal (Some s) ∧
        drawer s Closed = mkDrawer Overlap Slide 0 250 true false) ∧
  (∃ s, first_render blink_precision true (inject_Z 601) 0 0
          = Normal (Some s) ∧
        drawer s Closed = mkDrawer Overlap Expand 60 250 true false).
Proof.
  assert (engine_ok blink_precision) as He.
  { split; vm_compute; discriminate. }
  split; [exact He|].
  destruct (drawer_by_width blink_precision 0 0 Closed He) as (Hz & H6 & _).
  split; [exact H6|]. apply (Hz 601%Z). lia.
Defined.

Lemma layout_run_app (isLarge : option bool) (evs1 evs2 : list LayoutEvent)
    (st : MenuStatus) :
  layout_run isLarge (evs1 ++ evs2) st
  = (let r := layout_run isLarge evs1 st in
     let r' := layout_run isLarge evs2 r.1 in (r'.1, r.2 ++ r'.2)).
Proof.
  revert st. induction evs1 as [|ev evs1 IH]; intros st; simpl.
  - by destruct (layout_run isLarge evs2 st).
  - rewrite IH. simpl. by rewrite app_assoc.
Qed.

(** X11.  On a large screen a menu that is opened stays opened through any
    clicks outside the drawer, navigations and requests to open it
    temporarily: only the toggle button closes it. *)
Theorem large_menu_stays_open (evs : list LayoutEvent) :
  Forall (λ ev, ∀ b, ev ≠ EToggle b) evs →
  (layout_run (Some true) evs Opened).1 = Opened.
Proof.
  induction evs as [|ev evs IH]; intros Hev; [done|].
  apply Forall_cons in Hev as [Hev Hevs]. simpl.
  assert ((layout_step (Some true) ev Opened).1 = Opened) as ->.
  { destruct ev as [b| | |sv e]; simpl; try done.
    - by destruct (Hev b).
    - unfold onNavigationChanged. simpl.
      destruct (negb (truthy_string (item_path e)) || truthy (node_selected e));
        done. }
  by apply IH.
Qed.

Lemma large_menu_stays_open_witness :
  Forall (λ ev, ∀ b, ev ≠ EToggle b)
    [EOutsideClick; ETemporaryOpen;
     ENavigate true (mkItemClick (Some "/pages/home") true (Some false));
     EOutsideClick] ∧
  (layout_run (Some true)
     [EOutsideClick; ETemporaryOpen;
      ENavigate true (mkItemClick (Some "/pages/home") true (Some false));
      EOutsideClick] Opened).1 = Opened.
Proof.
  assert (Forall (λ ev, ∀ b, ev ≠ EToggle b)
            [EOutsideClick; ETemporaryOpen;
             ENavigate true (mkItemClick (Some "/pages/home") true (Some false));
             EOutsideClick]) as H.
  { repeat constructor; intros b; discriminate. }
  split; [exact H|]. apply (large_menu_stays_open _ H).
Defined.

(** X12.  From a closed (compact) menu, opening it temporarily and then
    choosing an item that has a path and is not selected pushes that path
    once and leaves the menu closed again, on every screen size. *)
Theorem temporary_open_then_navigate (isLarge : option bool)
    (scrollView : bool) (e : ItemClickEvent) (p : string) :
  item_path e = Some p → p ≠ EmptyString → truthy (node_selected e) = false →
  layout_run isLarge [ETemporaryOpen; ENavigate scrollView e] Closed
  = (Closed,
     RouterPush p :: (if scrollView then [ScrollTo 0] else [])
       ++ on_event (has_event e) StopPropagation).
Proof.
  intros Hp Hne Hsel. simpl. unfold onNavigationChanged.
  rewrite Hp, Hsel. simpl.
  destruct p as [|a p']; [done|]. simpl.
  rewrite orb_true_r. simpl. by rewrite app_nil_r.
Qed.

Lemma temporary_open_then_navigate_witness :
  layout_run (Some true)
    [ETemporaryOpen;
     ENavigate true (mkItemClick (Some "/pages/form") true None)] Closed
  = (Closed, [RouterPush "/pages/form"; ScrollTo 0; StopPropagation]).
Proof.
  apply (temporary_open_then_navigate (Some true) true
           (mkItemClick (Some "/pages/form") true None) "/pages/form").
  - reflexivity.
  - discriminate.
  - reflexivity.
Defined.

(** * The employee service *)

Section FindById.
Implicit Types l : list Employee.

Lemma find_id_cons (n : Z) (x : Employee) l :
  list_find (λ emp, ID emp = n) (x :: l)
  = if decide (ID x = n) then Some (0, x)
    else prod_map S id <$> list_find (λ emp, ID emp = n) l.
Proof. reflexivity. Qed.

Lemma find_id_absent (id : Z) l :
  id ∉ ID <$> l → list_find (λ emp, ID emp = id) l = None.
Proof.
  intros Hn. apply list_find_None, Forall_forall. intros e He Hid.
  apply Hn. rewrite <- Hid. by apply list_elem_of_fmap_2.
Qed.

Lemma find_id_present (e : Employee) l :
  NoDup (ID <$> l) → e ∈ l →
  snd <$> list_find (λ emp, ID emp = ID e) l = Some e.
Proof.
  induction l as [|x l IH]; intros Hnd He; [by apply elem_of_nil in He|].
  rewrite fmap_cons in Hnd. apply NoDup_cons in Hnd as [Hx Hnd].
  rewrite find_id_cons. apply elem_of_cons in He as [->|He].
  - by rewrite decide_True.
  - rewrite decide_False.
    + destruct (list_find (λ emp, ID emp = ID e) l) as [[i y]|] eqn:E;
        specialize (IH Hnd He); [|discriminate].
      simpl in IH |- *. done.
    + intros Hid. apply Hx. rewrite Hid. by apply list_elem_of_fmap_2.
Qed.

Lemma snd_prod_map_find (n : Z) l :
  snd <$> (prod_map S id <$> list_find (λ emp, ID emp = n) l)
  = snd <$> list_find (λ emp, ID emp = n) l.
Proof. by destruct (list_find (λ emp, ID emp = n) l) as [[? ?]|]. Qed.

Lemma find_id_cons_ne (n : Z) (x : Employee) l :
  ID x ≠ n →
  snd <$> list_find (λ emp, ID emp = n) (x :: l)
  = snd <$> list_find (λ emp, ID emp = n) l.
Proof.
  intros Hne. by rewrite find_id_cons, decide_False, snd_prod_map_find.
Qed.

Lemma find_id_delete (n : Z) l (i : nat) (e : Employee) :
  NoDup (ID <$> l) →
  list_find (λ emp, ID emp = n) l = Some (i, e) →
  list_find (λ emp, ID emp = n) (delete i l) = None ∧
  ∀ j, j ≠ n →
    snd <$> list_find (λ emp, ID emp = j) (delete i l)
    = snd <$> list_find (λ emp, ID emp = j) l.
Proof.
  revert i. induction l as [|x l IH]; intros i Hnd Hf; [done|].
  rewrite fmap_cons in Hnd. apply NoDup_cons in Hnd as [Hx Hnd].
  rewrite find_id_cons in Hf. destruct (decide (ID x = n)) as [Hid|Hid].
  - injection Hf as <- <-. change (delete 0 (x :: l)) with l.
    split; [apply find_id_absent; by rewrite <- Hid|].
    intros j Hj. rewrite find_id_cons_ne; [done|congruence].
  - destruct (list_find (λ emp, ID emp = n) l) as [[i' y]|] eqn:E;
      [|discriminate]. injection Hf as <- <-.
    change (delete (S i') (x :: l)) with (x :: delete i' l).
    destruct (IH i' Hnd eq_refl) as [IH1 IH2]. split.
    + by rewrite find_id_cons, decide_False, IH1.
    + intros j Hj. rewrite !find_id_cons. case_decide; [done|].
      rewrite !snd_prod_map_find. by apply IH2.
Qed.

Lemma find_id_insert (n : Z) l (i : nat) (e e' : Employee) :
  list_find (λ emp, ID emp = n) l = Some (i, e) → ID e' = n →
  l !! i = Some e ∧ ID e = n ∧
  list_find (λ emp, ID emp = n) (<[i:=e']> l) = Some (i, e') ∧
  ID <$> <[i:=e']> l = ID <$> l ∧
  ∀ j, j ≠ n →
    snd <$> list_find (λ emp, ID emp = j) (<[i:=e']> l)
    = snd <$> list_find (λ emp, ID emp = j) l.
Proof.
  revert i. induction l as [|x l IH]; intros i Hf He'; [done|].
  rewrite find_id_cons in Hf. destruct (decide (ID x = n)) as [Hid|Hid].
  - injection Hf as <- <-. change (<[0:=e']> (x :: l)) with (e' :: l).
    split; [done|]. split; [done|].
    split; [by rewrite find_id_cons, decide_True|].
    split; [by rewrite !fmap_cons, He', Hid|].
    intros j Hj. rewrite !find_id_cons_ne; [done|congruence|congruence].
  - destruct (list_find (λ emp, ID emp = n) l) as [[i' y]|] eqn:E;
      [|discriminate]. injection Hf as <- <-.
    change (<[S i':=e']> (x :: l)) with (x :: <[i':=e']> l).
    destruct (IH i' eq_refl He') as (I1 & I2 & I3 & I4 & I5).
    split; [done|]. split; [done|].
    split; [by rewrite find_id_cons, decide_False, I3|].
    split; [by rewrite !fmap_cons, I4|].
    intros j Hj. rewrite !find_id_cons. case_decide; [done|].
    rewrite !snd_prod_map_find. by apply I5.
Qed.

Lemma find_id_snoc_new (n : Z) (e' : Employee) l :
  ID e' = n → Forall (λ e, ID e ≠ n) l →
  snd <$> list_find (λ emp, ID emp = n) (l ++ [e']) = Some e'.
Proof.
  intros He Hn. rewrite list_find_app_r.
  - rewrite find_id_cons, decide_True by done. done.
  - by apply list_find_None.
Qed.

Lemma find_id_snoc_old (j : Z) (e0 e' : Employee) l :
  snd <$> list_find (λ emp, ID emp = j) l = Some e0 →
  snd <$> list_find (λ emp, ID emp = j) (l ++ [e']) = Some e0.
Proof.
  destruct (list_find (λ emp, ID emp = j) l) as [[i y]|] eqn:E; [|done].
  intros H. by rewrite (list_find_app_l _ _ _ _ _ E).
Qed.

End FindById.

Section ServiceFacts.
Context `{DateHost}.

Lemma initial_store_ok : ids_ok initial_store.
Proof.
  split; simpl.
  - apply NoDup_singleton.
  - repeat constructor.
Qed.

Lemma add_ok (now : string) (e : Employee) (st : Store) :
  ids_ok st → ids_ok (addEmployee now e st).2.
Proof.
  intros [Hnd Hlt]. split; simpl.
  - rewrite fmap_app. apply NoDup_app. split; [done|]. split.
    + intros x Hx Hx'. apply list_elem_of_singleton in Hx'.
      apply list_elem_of_fmap in Hx as (y & -> & Hy).
      rewrite Forall_forall in Hlt. specialize (Hlt y Hy). simpl in Hx'. lia.
    + apply NoDup_singleton.
  - apply Forall_app. split.
    + eapply Forall_impl; [exact Hlt|]. simpl. intros; lia.
    + repeat constructor. simpl. lia.
Qed.

Lemma update_ok (now : string) (id : Z) (p : PartialEmployee) (st : Store) :
  ids_ok st → ids_ok (updateEmployee now id p st).2.
Proof.
  intros [Hnd Hlt]. unfold updateEmployee, findIndex.
  destruct (list_find (λ emp, ID emp = id) (employees st)) as [[i e]|] eqn:E;
    simpl; [|done].
  destruct (find_id_insert id _ i e (merge now id e p) E eq_refl)
    as (Hi & Hid & _ & Hids & _).
  rewrite Hi. split; simpl.
  - by rewrite Hids.
  - apply Forall_insert; [done|]. simpl. rewrite <- Hid.
    by apply (Forall_lookup_1 _ _ _ _ Hlt Hi).
Qed.

Lemma delete_ok (id : Z) (st : Store) :
  ids_ok st → ids_ok (deleteEmployee id st).2.
Proof.
  intros [Hnd Hlt]. unfold deleteEmployee, findIndex.
  destruct (list_find (λ emp, ID emp = id) (employees st)) as [[i e]|];
    simpl; [|done].
  split; simpl.
  - rewrite list_fmap_delete. apply (sublist_NoDup _ _ Hnd (sublist_delete _ i)).
  - by apply Forall_delete.
Qed.

Lemma service_run_ok (os : list ServiceOp) (st : Store) :
  ids_ok st → ids_ok (service_run os st).
Proof.
  revert st. induction os as [|o os IH]; intros st Hok; [done|].
  simpl. apply IH. destruct o as [now e|now id p|id|]; simpl.
  - by apply add_ok.
  - by apply update_ok.
  - by apply delete_ok.
  - apply initial_store_ok.
Qed.

End ServiceFacts.

Lemma getEmployeeById_Some (id : Z) (st : Store) (e : Employee) :
  getEmployeeById id st = Some e →
  ∃ i, list_find (λ emp, ID emp = id) (employees st) = Some (i, e).
Proof.
  unfold getEmployeeById.
  destruct (list_find (λ emp, ID emp = id) (employees st)) as [[i y]|];
    [|done]. intros [= ->]. by exists i.
Qed.

Lemma getEmployeeById_None (id : Z) (st : Store) :
  getEmployeeById id st = None →
  list_find (λ emp, ID emp = id) (employees st) = None.
Proof.
  unfold getEmployeeById.
  by destruct (list_find (λ emp, ID emp = id) (employees st)) as [[i y]|].
Qed.

(** X13.  Whatever is added, updated, deleted or reset, starting from the
    store of the module, no two employees of the store have the same [ID],
    every [ID] is below [nextId], and [getEmployeeById] of the [ID] of an
    employee of the store returns that employee. *)
Theorem service_ids_unique `{DateHost} (os : list ServiceOp) :
  NoDup (ID <$> employees (service_run os initial_store)) ∧
  Forall (λ e, (ID e < nextId (service_run os initial_store))%Z)
    (employees (service_run os initial_store)) ∧
  ∀ e, e ∈ getAllEmployees (service_run os initial_store) →
       getEmployeeById (ID e) (service_run os initial_store) = Some e.
Proof.
  destruct (service_run_ok os initial_store initial_store_ok) as [Hnd Hlt].
  split; [done|]. split; [done|].
  intros e He. by apply find_id_present.
Qed.

(** X14.  In a store whose identifiers are below [nextId], [addEmployee]
    gives the new employee the identifier [nextId], whatever [ID] was
    passed in, puts it at the end of the store and raises [nextId] by one;
    the data fields are the ones passed in; [getEmployeeById] finds the new
    employee by its identifier and still finds every other one. *)
Theorem add_then_get `{DateHost} (now : string) (e : Employee) (st : Store) :
  ids_ok st →
  ∃ e' st',
    addEmployee now e st = (e', st') ∧
    ID e' = nextId st ∧ nextId st' = (nextId st + 1)%Z ∧
    getAllEmployees st' = getAllEmployees st ++ [e'] ∧
    FirstName e' = FirstName e ∧ LastName e' = LastName e ∧
    Position e' = Position e ∧ HireDate e' = HireDate e ∧
    CreatedAt e' = Some now ∧
    getEmployeeById (ID e') st' = Some e' ∧
    ∀ j e0, getEmployeeById j st = Some e0 → getEmployeeById j st' = Some e0.
Proof.
  intros [Hnd Hlt]. eexists _, _. split; [reflexivity|].
  repeat (split; [reflexivity|]). split.
  - unfold getEmployeeById. simpl. apply find_id_snoc_new; [done|].
    eapply Forall_impl; [exact Hlt|]. simpl. intros; lia.
  - intros j e0. unfold getEmployeeById. simpl. apply find_id_snoc_old.
Qed.

Lemma add_then_get_witness :
  ids_ok initial_store ∧
  ∃ e' st',
    @addEmployee sample_host "now" jane initial_store = (e', st') ∧
    ID e' = 2%Z ∧ getAllEmployees st' = [defaultEmployee; e'] ∧
    FirstName e' = "Jane"%string ∧
    getEmployeeById 2 st' = Some e' ∧
    getEmployeeById 1 st' = Some defaultEmployee.
Proof.
  assert (ids_ok initial_store) as Hok.
  { split; simpl; [apply NoDup_singleton|repeat constructor]. }
  split; [exact Hok|].
  destruct (@add_then_get sample_host "now" jane initial_store Hok)
    as (e' & st' & A & I & _ & L & F & _ & _ & _ & _ & G & O).
  exists e', st'. split; [exact A|]. split; [exact I|]. split; [exact L|].
  split; [exact F|]. split; [rewrite I in G; exact G|].
  apply O. reflexivity.
Defined.

(** X15.  In a store whose identifiers are pairwise different,
    [deleteEmployee] of an identifier that is in the store returns [true]
    and takes one employee out; afterwards [getEmployeeById] does not find
    that identifier and finds every other one as before. *)
Theorem delete_then_get (id : Z) (e : Employee) (st : Store) :
  ids_ok st → getEmployeeById id st = Some e →
  ∃ st',
    deleteEmployee id st = (true, st') ∧
    getEmployeeById id st' = None ∧
    length (employees st') + 1 = length (employees st) ∧
    nextId st' = nextId st ∧
    ∀ j, j ≠ id → getEmployeeById j st' = getEmployeeById j st.
Proof.
  intros [Hnd _] Hg. destruct (getEmployeeById_Some id st e Hg) as [i Hf].
  unfold deleteEmployee, findIndex. rewrite Hf. simpl.
  eexists. split; [reflexivity|].
  destruct (find_id_delete id _ i e Hnd Hf) as [D1 D2].
  apply list_find_Some in Hf as (Hi & _).
  unfold getEmployeeById. simpl. rewrite D1.
  split; [done|]. split.
  - rewrite length_delete by eauto. apply lookup_lt_Some in Hi. lia.
  - split; [done|]. exact D2.
Qed.

Lemma delete_then_get_witness :
  (ids_ok two_store ∧ getEmployeeById 1 two_store = Some defaultEmployee) ∧
  ∃ st',
    deleteEmployee 1 two_store = (true, st') ∧
    getEmployeeById 1 st' = None ∧
    length (employees st') + 1 = length (employees two_store) ∧
    nextId st' = nextId two_store ∧
    ∀ j, j ≠ 1%Z → getEmployeeById j st' = getEmployeeById j two_store.
Proof.
  assert (ids_ok two_store) as Hok.
  { split; simpl.
    - apply NoDup_ListNoDup. repeat constructor; simpl; intuition lia.
    - repeat constructor; simpl; lia. }
  split; [split; [exact Hok|reflexivity]|].
  apply (delete_then_get 1 defaultEmployee two_store Hok). reflexivity.
Defined.

(** X16.  For an identifier that [getEmployeeById] does not find,
    [updateEmployee] returns [null] and [deleteEmployee] returns [false],
    and both leave the store as it is. *)
Theorem missing_id_noop `{DateHost} (now : string) (id : Z)
    (p : PartialEmployee) (st : Store) :
  getEmployeeById id st = None →
  updateEmployee now id p st = (None, st) ∧
  deleteEmployee id st = (false, st).
Proof.
  intros Hg. apply getEmployeeById_None in Hg.
  unfold updateEmployee, deleteEmployee, findIndex. by rewrite Hg.
Qed.

Lemma missing_id_noop_witness :
  getEmployeeById 7 initial_store = None ∧
  @updateEmployee sample_host "now" 7 promote initial_store
    = (None, initial_store) ∧
  deleteEmployee 7 initial_store = (false, initial_store).
Proof.
  split; [reflexivity|].
  apply (@missing_id_noop sample_host "now" 7 promote initial_store).
  reflexivity.
Defined.

(** X17.  [updateEmployee] of an identifier that is in the store returns
    the employee it found, merged with the fields passed in: each of the
    eleven data fields and [CreatedAt] is the one passed in if there is one
    and else the one the employee had; [ID] is that identifier even if
    another was passed in; the two display texts are made from the hire
    dates and the birth date passed in; [UpdatedAt] is the present time.
    The store keeps its identifiers in their order and [nextId];
    [getEmployeeById] returns the merged employee for that identifier and
    the same as before for every other one. *)
Theorem update_then_get `{DateHost} (now : string) (id : Z)
    (p : PartialEmployee) (e : Employee) (st : Store) :
  getEmployeeById id st = Some e →
  ∃ e' st',
    updateEmployee now id p st = (Some e', st') ∧
    ID e' = id ∧
    FirstName e' = default (FirstName e) (pFirstName p) ∧
    LastName e' = default (LastName e) (pLastName p) ∧
    Position e' = default (Position e) (pPosition p) ∧
    UpdatedAt e' = Some now ∧
    BirthDate_ e' = default (BirthDate_ e) (pBirthDate p) ∧
    HireDate e' = default (HireDate e) (pHireDate p) ∧
    Notes e' = default (Notes e) (pNotes p) ∧
    Address e' = default (Address e) (pAddress p) ∧
    Phone e' = default (Phone e) (pPhone p) ∧
    Email e' = default (Email e) (pEmail p) ∧
    Password e' = default (Password e) (pPassword p) ∧
    ConfirmPassword e' = default (ConfirmPassword e) (pConfirmPassword p) ∧
    HireDateDisplay e' = Some (hireDateDisplay (pHireDate p)) ∧
    BirthDateDisplay e' = Some (birthDateDisplay (pBirthDate p)) ∧
    CreatedAt e'
      = match pCreatedAt p with Some c => Some c | None => CreatedAt e end ∧
    ID <$> employees st' = ID <$> employees st ∧
    nextId st' = nextId st ∧
    getEmployeeById id st' = Some e' ∧
    ∀ j, j ≠ id → getEmployeeById j st' = getEmployeeById j st.
Proof.
  intros Hg. destruct (getEmployeeById_Some id st e Hg) as [i Hf].
  destruct (find_id_insert id _ i e (merge now id e p) Hf eq_refl)
    as (Hi & _ & F & Hids & O).
  unfold updateEmployee, findIndex. rewrite Hf. simpl. rewrite Hi.
  eexists _, _. split; [reflexivity|].
  repeat (split; [reflexivity|]).
  unfold getEmployeeById. simpl. rewrite F.
  split; [done|]. split; [done|]. split; [done|]. exact O.
Qed.

Lemma update_then_get_witness :
  getEmployeeById 2 two_store
    = Some (@addEmployee sample_host "now" jane initial_store).1 ∧
  ∃ e' st',
    @updateEmployee sample_host "later" 2 promote two_store = (Some e', st') ∧
    ID e' = 2%Z ∧ FirstName e' = "Jane"%string ∧ Position e' = "CEO"%string ∧
    UpdatedAt e' = Some "later"%string ∧
    BirthDate_ e' = BirthString "1980/01/01" ∧
    BirthDateDisplay e' = Some "Not specified"%string ∧
    getEmployeeById 2 st' = Some e' ∧
    getEmployeeById 1 st' = Some defaultEmployee.
Proof.
  split; [reflexivity|].
  destruct (@update_then_get sample_host "later" 2 promote
              (@addEmployee sample_host "now" jane initial_store).1 two_store)
    as (e' & st' & U & I & F & _ & P & A & B & _ & _ & _ & _ & _ & _ & _ & _
        & BD & _ & _ & _ & G & O); [reflexivity|].
  exists e', st'. split; [exact U|]. split; [exact I|].
  split; [exact F|]. split; [exact P|]. split; [exact A|].
  split; [exact B|]. split; [exact BD|].
  split; [exact G|]. rewrite (O 1%Z); [reflexivity|lia].
Defined.

(** X18.  When [updateEmployee] is given no hire dates and no birth date,
    the employee keeps the dates it had, but its two display texts become
    "Not specified": they are made from the fields passed in alone. *)
Theorem update_display_from_partial `{DateHost} (now : string) (id : Z)
    (p : PartialEmployee) (e : Employee) (st : Store) :
  getEmployeeById id st = Some e →
  pHireDate p = None → pBirthDate p = None →
  ∃ e' st',
    updateEmployee now id p st = (Some e', st') ∧
    HireDate e' = HireDate e ∧ BirthDate_ e' = BirthDate_ e ∧
    HireDateDisplay e' = Some "Not specified"%string ∧
    BirthDateDisplay e' = Some "Not specified"%string.
Proof.
  intros Hg Hh Hb. destruct (getEmployeeById_Some id st e Hg) as [i Hf].
  apply list_find_Some in Hf as Hi. destruct Hi as (Hi & _).
  unfold updateEmployee, findIndex. rewrite Hf. simpl. rewrite Hi.
  eexists _, _. split; [reflexivity|]. simpl. rewrite Hh, Hb. done.
Qed.

(** Jane has both hire dates and the text that shows them; after her
    position alone is updated the dates are there and the text is not. *)
Lemma update_display_from_partial_witness :
  (getEmployeeById 2 two_store
     = Some (@addEmployee sample_host "now" jane initial_store).1 ∧
   HireDateDisplay (@addEmployee sample_host "now" jane initial_store).1
     = Some "1/1/2024 - 1/1/2024"%string ∧
   pHireDate promote = None ∧ pBirthDate promote = None) ∧
  ∃ e' st',
    @updateEmployee sample_host "later" 2 promote two_store = (Some e', st') ∧
    HireDate e' = (Some (DateAt 0), Some (DateAt 86400000)) ∧
    HireDateDisplay e' = Some "Not specified"%string.
Proof.
  split; [repeat split; reflexivity|].
  destruct (@update_display_from_partial sample_host "later" 2 promote
              (@addEmployee sample_host "now" jane initial_store).1 two_store)
    as (e' & st' & U & Hd & _ & D & _); [reflexivity..|].
  exists e', st'. split; [exact U|]. split; [exact Hd|exact D].
Defined.

(** X19.  In a store whose identifiers are pairwise different and below
    [nextId], the identifier of a deleted employee is not given to the
    next employee that is added: the new identifier is greater, and
    [getEmployeeById] still does not find the deleted one. *)
Theorem deleted_id_not_reused `{DateHost} (now : string) (id : Z)
    (e new : Employee) (st : Store) :
  ids_ok st → getEmployeeById id st = Some e →
  ∃ st1 e2 st2,
    deleteEmployee id st = (true, st1) ∧
    addEmployee now new st1 = (e2, st2) ∧
    (id < ID e2)%Z ∧
    getEmployeeById id st2 = None ∧
    getEmployeeById (ID e2) st2 = Some e2.
Proof.
  intros [Hnd Hlt] Hg. destruct (getEmployeeById_Some id st e Hg) as [i Hf].
  destruct (find_id_delete id _ i e Hnd Hf) as [D1 _].
  apply list_find_Some in Hf as Hi. destruct Hi as (Hi & Hid & _).
  pose proof (Forall_lookup_1 _ _ _ _ Hlt Hi) as Hlt'. simpl in Hlt'.
  unfold deleteEmployee, findIndex. rewrite Hf. simpl.
  eexists _, _, _. split; [reflexivity|]. split; [reflexivity|]. simpl.
  split; [lia|]. unfold getEmployeeById. simpl. split.
  - rewrite list_find_app_r by done. rewrite find_id_cons, decide_False; [done|].
    simpl. lia.
  - apply find_id_snoc_new; [done|].
    apply Forall_delete. eapply Forall_impl; [exact Hlt|]. simpl. intros; lia.
Qed.

Lemma deleted_id_not_reused_witness :
  (ids_ok two_store ∧
   getEmployeeById 2 two_store
     = Some (@addEmployee sample_host "now" jane initial_store).1) ∧
  ∃ st1 e2 st2,
    deleteEmployee 2 two_store = (true, st1) ∧
    @addEmployee sample_host "later" jane st1 = (e2, st2) ∧
    (2 < ID e2)%Z ∧
    getEmployeeById 2 st2 = None ∧
    getEmployeeById (ID e2) st2 = Some e2.
Proof.
  assert (ids_ok two_store) as Hok.
  { split; simpl.
    - apply NoDup_ListNoDup. repeat constructor; simpl; intuition lia.
    - repeat constructor; simpl; lia. }
  split; [split; [exact Hok|reflexivity]|].
  apply (@deleted_id_not_reused sample_host "later" 2
           (@addEmployee sample_host "now" jane initial_store).1 jane
           two_store Hok).
  reflexivity.
Defined.

Section Positive.
Context `{DateHost}.

Lemma service_step_positive (o : ServiceOp) (st : Store) :
  Forall (λ e, (1 ≤ ID e)%Z) (employees st) → (1 ≤ nextId st)%Z →
  Forall (λ e, (1 ≤ ID e)%Z) (employees (service_step o st)) ∧
  (1 ≤ nextId (service_step o st))%Z.
Proof.
  intros Hp Hn. destruct o as [now e|now n p|n|]; simpl.
  - split; [|lia]. apply Forall_app. split; [done|]. by repeat constructor.
  - unfold updateEmployee, findIndex.
    destruct (list_find (λ emp, ID emp = n) (employees st)) as [[i e]|] eqn:E;
      simpl; [|done].
    destruct (find_id_insert n _ i e (merge now n e p) E eq_refl)
      as (Hi & Hid & _).
    rewrite Hi. simpl. split; [|done].
    apply Forall_insert; [done|]. simpl. rewrite <- Hid.
    by apply (Forall_lookup_1 _ _ _ _ Hp Hi).
  - unfold deleteEmployee, findIndex.
    destruct (list_find (λ emp, ID emp = n) (employees st)) as [[i e]|];
      simpl; [|done].
    split; [by apply Forall_delete|done].
  - split; [|lia]. by repeat constructor.
Qed.

Lemma service_run_positive (os : list ServiceOp) (st : Store) :
  Forall (λ e, (1 ≤ ID e)%Z) (employees st) → (1 ≤ nextId st)%Z →
  Forall (λ e, (1 ≤ ID e)%Z) (employees (service_run os st)).
Proof.
  revert st. induction os as [|o os IH]; intros st Hp Hn; [done|].
  simpl. destruct (service_step_positive o st Hp Hn). by apply IH.
Qed.

End Positive.

(** X20.  The empty form that [getEmployee()] returns has the [ID] 0, and
    no employee of the store ever has it: after any sequence of additions,
    updates, deletions and resets, [getEmployeeById] of that [ID] returns
    [null], [updateEmployee] with it returns [null] and [deleteEmployee]
    with it returns [false], and the store stays as it is. *)
Theorem blank_form_id_unused `{DateHost} (os : list ServiceOp) (now : string)
    (p : PartialEmployee) :
  ID getEmployee = 0%Z ∧
  getEmployeeById (ID getEmployee) (service_run os initial_store) = None ∧
  updateEmployee now (ID getEmployee) p (service_run os initial_store)
    = (None, service_run os initial_store) ∧
  deleteEmployee (ID getEmployee) (service_run os initial_store)
    = (false, service_run os initial_store).
Proof.
  split; [done|].
  assert (list_find (λ emp, ID emp = ID getEmployee)
            (employees (service_run os initial_store)) = None) as Hf.
  { apply list_find_None.
    eapply Forall_impl; [apply (service_run_positive os initial_store)|].
    - by repeat constructor.
    - simpl. lia.
    - simpl. intros e He. lia. }
  unfold getEmployeeById, updateEmployee, deleteEmployee, findIndex.
  by rewrite Hf.
Qed.

(** * The middleware *)

(** X21.  The middleware answers no request with a redirect: whenever it
    completes, the answer is [NextResponse.next()].  For a path that does
    not start with "/pages" it makes no call into the session library; for
    a path that does, it creates a session for the default user exactly
    when there is no session cookie or [decrypt] yields no [userId]. *)
Theorem middleware_never_redirects `{SessionLib} (path : string)
    (cookie : option string) :
  (∀ r calls, middleware path cookie = Normal (r, calls) → r = ResponseNext) ∧
  (isProtectedRoute path = false →
   middleware path cookie = Normal (ResponseNext, [])) ∧
  (∀ r calls, middleware path cookie = Normal (r, calls) →
     (CallCreateSession defaultUser_id ∈ calls ↔
      isProtectedRoute path = true ∧
      (truthy_string cookie = false ∨
       ∃ s, decrypt (default EmptyString cookie) = Normal s ∧
            truthy_string (s ≫= userId) = false))).
Proof.
  unfold middleware, redirectUnauthorized, DEMO_logIn.
  split; [|split].
  - intros r calls.
    destruct (isProtectedRoute path); simpl; [|by intros [= <- _]].
    destruct (truthy_string cookie); simpl.
    + destruct (decrypt (default EmptyString cookie)) as [s|]; simpl; [|done].
      destruct (truthy_string (s ≫= userId)); simpl; [by intros [= <- _]|].
      destruct (createSession defaultUser_id); simpl; [|done].
      by intros [= <- _].
    + destruct (createSession defaultUser_id); simpl; [|done].
      by intros [= <- _].
  - by intros ->.
  - intros r calls.
    destruct (isProtectedRoute path); simpl.
    2:{ intros [= _ <-]. split; [by intros ?%elem_of_nil|by intros [? _]]. }
    destruct (truthy_string cookie) eqn:Hc; simpl.
    + destruct (decrypt (default EmptyString cookie)) as [s|] eqn:Hd; simpl;
        [|done].
      destruct (truthy_string (s ≫= userId)) eqn:Hu; simpl.
      * intros [= _ <-]. split.
        -- intros Hin. apply list_elem_of_singleton in Hin. discriminate.
        -- intros [_ [?|(s' & [= <-] & Hs')]]; congruence.
      * destruct (createSession defaultUser_id); simpl; [|done].
        intros [= _ <-]. split; [|intros _; set_solver].
        intros _. split; [done|]. right. eauto.
    + destruct (createSession defaultUser_id); simpl; [|done].
      intros [= _ <-]. split; [|intros _; set_solver].
      intros _. split; [done|]. by left.
Qed.

Lemma middleware_never_redirects_witness :
  @middleware sample_sessions "/auth/login" None = Normal (ResponseNext, []) ∧
  @middleware sample_sessions "/pages/home" None
    = Normal (ResponseNext, [CallCreateSession "1"]) ∧
  @middleware sample_sessions "/pages/home" (Some "bad"%string)
    = Normal (ResponseNext, [CallDecrypt "bad"; CallCreateSession "1"]) ∧
  @middleware sample_sessions "/pages/home" (Some "good"%string)
    = Normal (ResponseNext, [CallDecrypt "good"]).
Proof.
  split.
  - apply (@middleware_never_redirects sample_sessions "/auth/login" None).
    reflexivity.
  - repeat split; reflexivity.
Defined.
